(** * dask_gateway.proxy.core: the [Proxy] control plane

    A shallow embedding of [dask_gateway/proxy/core.py]: the [Proxy] class
    that resolves an auth token, launches the [configurable-tls-proxy]
    engine as a child process and drives the engine's route API over HTTP.

    Python [str] and [bytes] values are modelled by [string]; integers by
    [Z]; [os.environ] and the engine's route table by [gmap string string].
    Every method of the class is a computation in the monad [M], which
    threads the [Proxy] object and the [World] around it (environment,
    entropy, log, process table, network) and may raise a Python
    exception. *)

From Stdlib Require Import ZArith Lia Ascii String List.
From stdpp Require Import base strings gmap list pretty.

Local Open Scope string_scope.
Local Open Scope Z_scope.

(* stdpp freezes [String.append] under [simpl]; the proofs below compute
   with it on literals. *)
#[local] Arguments String.append !s1 s2 : simpl nomatch.
#[local] Set Warnings "-register-all".

(** ** Text helpers *)

Module Text.

Definition is_empty (s : string) : bool :=
  match s with EmptyString => true | String _ _ => false end.

Fixpoint all_chars (f : ascii -> bool) (s : string) : bool :=
  match s with
  | EmptyString => true
  | String c s' => f c && all_chars f s'
  end.

Fixpoint repeat_char (c : ascii) (n : nat) : string :=
  match n with
  | O => EmptyString
  | S n' => String c (repeat_char c n')
  end.

(** [s.rjust(w, '0')], the padding a [%0<w>x] conversion applies. *)
Definition zfill (w : nat) (s : string) : string :=
  repeat_char "0" (w - String.length s) +:+ s.

Definition code (c : ascii) : Z := Z.of_N (N_of_ascii c).

Definition is_lower_hex (c : ascii) : bool :=
  ((48 <=? code c) && (code c <=? 57)) || ((97 <=? code c) && (code c <=? 102)).

Definition hex_digit (d : Z) : ascii :=
  if d <? 10 then ascii_of_N (Z.to_N (48 + d)) else ascii_of_N (Z.to_N (87 + d)).

Definition hex_value (c : ascii) : Z :=
  if code c <=? 57 then code c - 48 else code c - 87.

(** Digits of [n], least significant first, pushed in front of [acc]. *)
Fixpoint hex_digits (fuel : nat) (n : Z) (acc : string) : string :=
  match fuel with
  | O => acc
  | S fuel' =>
      let acc' := String (hex_digit (n mod 16)) acc in
      if n / 16 =? 0 then acc' else hex_digits fuel' (n / 16) acc'
  end.

(** ['%x' % n] for [0 <= n]. *)
Definition format_x (n : Z) : string :=
  hex_digits (S (Z.to_nat (Z.log2 n))) n EmptyString.

(** ['%032x' % n]. *)
Definition format_032x (n : Z) : string := zfill 32 (format_x n).

(** [Some rest] when [s] is [pre] followed by [rest]. *)
Fixpoint strip_prefix (pre s : string) : option string :=
  match pre, s with
  | EmptyString, _ => Some s
  | String a pre', String b s' => if Ascii.eqb a b then strip_prefix pre' s' else None
  | String _ _, EmptyString => None
  end.

(** Reading a hexadecimal numeral back, most significant digit first. *)
Fixpoint hex_read (acc : Z) (s : string) : Z :=
  match s with
  | EmptyString => acc
  | String c s' => hex_read (16 * acc + hex_value c) s'
  end.

End Text.

(** ** [uuid.uuid4().hex] *)

Module Uuid.

(** [UUID(bytes=b, version=4).int], where [r = int.from_bytes(b, 'big')]:
    the variant bits are set to RFC 4122 and the version nibble to 4. *)
Definition uuid4_int (r : Z) : Z :=
  let i := Z.land r (Z.lnot (Z.shiftl 0xc000 48)) in
  let i := Z.lor i (Z.shiftl 0x8000 48) in
  let i := Z.land i (Z.lnot (Z.shiftl 0xf000 64)) in
  Z.lor i (Z.shiftl 4 76).

(** [UUID.hex]. *)
Definition hex (i : Z) : string := Text.format_032x i.

(** [uuid.uuid4().hex] when [os.urandom(16)] returned the bytes of [r]. *)
Definition uuid4_hex (r : Z) : string := hex (uuid4_int r).

(** The six bits [uuid4] overwrites: version nibble and variant pair. *)
Definition fixed_bits : Z := Z.lor (Z.shiftl 0xf000 64) (Z.shiftl 0xc000 48).

(** The value [uuid4] writes into them. *)
Definition fixed_value : Z := Z.lor (Z.shiftl 4 76) (Z.shiftl 0x8000 48).

End Uuid.

(** ** Values exchanged with the engine *)

(** What [json.loads] can return and [json.dumps] accepts.  A Python
    [dict] keeps its items in insertion order; a float is kept as the
    numeral it was written with. *)
Inductive json : Type :=
| JNull
| JBool (b : bool)
| JInt (n : Z)
| JFloat (numeral : string)
| JStr (s : string)
| JList (items : list json)
| JDict (items : list (string * json)).

(** A [dict] whose values are all strings, such as a route table. *)
Definition str_dict (kvs : list (string * string)) : json :=
  JDict (map (fun kv => (kv.1, JStr kv.2)) kvs).

(** [tornado.httpclient.HTTPRequest], the fields the class sets. *)
Record HTTPRequest : Type := mkRequest {
  url : string;
  method : string;
  headers : list (string * string);
  body : option string
}.

(** [tornado.httpclient.HTTPResponse]: status code, headers and raw body.
    [error] is tornado's [response.error] where it is not the [HTTPError]
    made from the status code: it describes the exception that ended an
    exchange without any HTTP response (a request tornado refused to
    write, a connection that failed, a timeout), which tornado reports
    under code 599. *)
Record HTTPResponse : Type := mkResponse {
  code : Z;
  response_headers : list (string * string);
  response_body : string;
  error : option string
}.

(** The exceptions the class's methods can end in.  [ClientError] stands
    for the exception tornado raises from [response.error] when an
    exchange ended without an HTTP response: a [ValueError] for a request
    it refuses to write, an [OSError] for a connection that failed, an
    [HTTPTimeoutError].  The class catches none of them, so only the
    description is kept. *)
Inductive exn : Type :=
| AttributeError (object attribute : string)
| ValueError (message : string)
| OSError (filename : string)
| HTTPError (status : Z) (response : HTTPResponse)
| ClientError (description : string)
| JSONDecodeError (doc : string).

Inductive result (A : Type) : Type :=
| Ok (a : A)
| Raise (e : exn).
Arguments Ok {A} a.
Arguments Raise {A} e.

Definition is_ok {A} (r : result A) : bool :=
  match r with Ok _ => true | Raise _ => false end.

(** ** The library functions the module imports

    [urllib.parse.urlparse], [json.dumps], [json.loads],
    [bytes.decode('utf8', 'replace')] and the decision of tornado's HTTP
    client to follow a redirect are taken through this interface, with
    the facts about them that the route protocol relies on.
    [ReferenceLibrary] below implements it. *)

Definition is_ascii (c : ascii) : bool := Text.code c <? 128.

Class Library : Type := {
  (** [urlparse(u).netloc]; [None] when [urlparse] raises [ValueError]. *)
  urlparse_netloc : string -> option string;
  json_dumps : json -> string;
  (** [None] when [json.loads] raises [JSONDecodeError]. *)
  json_loads : string -> option json;
  decode_utf8_replace : string -> string;
  (** tornado's [_should_follow_redirect] together with the request it
      fetches next: [Some next] when the client follows the answer [resp]
      to [req] instead of handing it to the caller. *)
  redirect : HTTPRequest -> HTTPResponse -> option HTTPRequest;
  decode_ascii : forall b : string,
    Text.all_chars is_ascii b = true -> decode_utf8_replace b = b;
  json_dumps_ascii : forall kvs : list (string * string),
    Text.all_chars is_ascii (json_dumps (str_dict kvs)) = true;
  json_loads_dumps : forall kvs : list (string * string),
    NoDup (map fst kvs) -> json_loads (json_dumps (str_dict kvs)) = Some (str_dict kvs);
  (** Only answers with a 3xx status are followed. *)
  redirect_3xx : forall (req : HTTPRequest) (resp : HTTPResponse) (next : HTTPRequest),
    redirect req resp = Some next -> 300 <= code resp < 400
}.

(** ** The [Proxy] object and the world around it *)

(** [CaselessStrEnum(["error", "warn", "info", "debug"])]. *)
Inductive LogLevel : Type := Error | Warn | Info | Debug.

Definition level_name (l : LogLevel) : string :=
  match l with
  | Error => "error"
  | Warn => "warn"
  | Info => "info"
  | Debug => "debug"
  end.

(** A traitlets attribute with a dynamic default: the default is computed
    on the first read and stored, so later reads return the same value. *)
Inductive trait (A : Type) : Type :=
| Unset
| Assigned (a : A).
Arguments Unset {A}.
Arguments Assigned {A} a.

Inductive Stdio : Type := PIPE | Inherited.

(** A [subprocess.Popen] object: the call's arguments and the child's pid. *)
Record Popen : Type := mkPopen {
  pid : nat;
  args : list string;
  env : gmap string string;
  stdin : Stdio;
  stdout : Stdio;
  stderr : Stdio;
  start_new_session : bool
}.

Record Proxy : Type := mkProxy {
  log_level : LogLevel;
  public_url : string;
  api_url : trait string;
  auth_token : trait string;
  proxy_process : option Popen
}.

(** A freshly configured object: [log_level="warn"],
    [public_url="tls://0.0.0.0:8080"], nothing else assigned. *)
Definition new_proxy : Proxy :=
  {| log_level := Warn; public_url := "tls://0.0.0.0:8080";
     api_url := Unset; auth_token := Unset; proxy_process := None |}.

Inductive LogMethod : Type := LogInfo | LogDebug.

Inductive Signal : Type := SIGTERM.

(** Everything outside the object that the methods read or change.  [E] is
    the state of the engine behind the management API. *)
Record World (E : Type) : Type := mkWorld {
  environ : gmap string string;         (* os.environ *)
  package_dir : string;                 (* directory of this module *)
  executable : string -> bool;          (* files the OS can exec *)
  urandom : nat -> Z;                   (* successive os.urandom(16) reads *)
  urandom_reads : nat;
  free_port : nat -> Z;                 (* successive random_port() results *)
  ports_taken : nat;
  log : list (LogMethod * string);      (* self.log *)
  children : list Popen;                (* processes spawned so far *)
  signals : list (nat * Signal);        (* signals sent so far *)
  sent : list HTTPRequest;              (* requests given to fetch() *)
  engine : E
}.
Arguments mkWorld {E}.
Arguments environ {E}.
Arguments package_dir {E}.
Arguments executable {E}.
Arguments urandom {E}.
Arguments urandom_reads {E}.
Arguments free_port {E}.
Arguments ports_taken {E}.
Arguments log {E}.
Arguments children {E}.
Arguments signals {E}.
Arguments sent {E}.
Arguments engine {E}.

(** ** The monad of method bodies *)

Section Methods.
Context {E : Type}.
(** What lies beyond tornado's [fetch] for one request: the checks
    tornado makes before it writes the request (URL scheme, header
    characters), the connection, and the engine at its end.  A request
    changes the engine's state and is answered by a response; where no
    HTTP response comes back (the request was refused, the connection
    failed or timed out) the response carries [error]. *)
Variable serve : E -> HTTPRequest -> E * HTTPResponse.
Context `{Library}.

Definition M (A : Type) : Type := Proxy -> World E -> result A * Proxy * World E.

#[global] Instance M_ret : MRet M := fun A a p w => (Ok a, p, w).

#[global] Instance M_bind : MBind M := fun A B k m p w =>
  match m p w with
  | (Ok a, p', w') => k a p' w'
  | (Raise e, p', w') => (Raise e, p', w')
  end.

Definition raise {A} (e : exn) : M A := fun p w => (Raise e, p, w).

Definition self {A} (field : Proxy -> A) : M A := fun p w => (Ok (field p), p, w).

Definition world {A} (field : World E -> A) : M A := fun p w => (Ok (field w), p, w).

Definition update_self (f : Proxy -> Proxy) : M unit := fun p w => (Ok tt, f p, w).

Definition update_world (f : World E -> World E) : M unit := fun p w => (Ok tt, p, f w).

(** *** Attribute assignment *)

Definition set_api_url (u : string) (p : Proxy) : Proxy :=
  {| log_level := log_level p; public_url := public_url p;
     api_url := Assigned u; auth_token := auth_token p;
     proxy_process := proxy_process p |}.

Definition set_auth_token (t : string) (p : Proxy) : Proxy :=
  {| log_level := log_level p; public_url := public_url p;
     api_url := api_url p; auth_token := Assigned t;
     proxy_process := proxy_process p |}.

Definition set_proxy_process (proc : Popen) (p : Proxy) : Proxy :=
  {| log_level := log_level p; public_url := public_url p;
     api_url := api_url p; auth_token := auth_token p;
     proxy_process := Some proc |}.

(** *** Effects on the world *)

Definition log_record (m : LogMethod) (msg : string) (w : World E) : World E :=
  mkWorld (environ w) (package_dir w) (executable w) (urandom w) (urandom_reads w)
          (free_port w) (ports_taken w) (log w ++ [(m, msg)]) (children w)
          (signals w) (sent w) (engine w).

Definition log_info (msg : string) : M unit := update_world (log_record LogInfo msg).
Definition log_debug (msg : string) : M unit := update_world (log_record LogDebug msg).

(** [os.urandom(16)] read as a big-endian integer. *)
Definition os_urandom16 : M Z := fun p w =>
  (Ok (urandom w (urandom_reads w) mod 2 ^ 128), p,
   mkWorld (environ w) (package_dir w) (executable w) (urandom w) (S (urandom_reads w))
           (free_port w) (ports_taken w) (log w) (children w)
           (signals w) (sent w) (engine w)).

(** [random_port()] of [dask_gateway.utils]: a port the OS reports free. *)
Definition random_port : M Z := fun p w =>
  (Ok (free_port w (ports_taken w)), p,
   mkWorld (environ w) (package_dir w) (executable w) (urandom w) (urandom_reads w)
           (free_port w) (S (ports_taken w)) (log w) (children w)
           (signals w) (sent w) (engine w)).

(** [os.environ.get(name, fallback)]. *)
Definition os_environ_get (name fallback : string) : M string :=
  world (fun w => default fallback (environ w !! name)).

(** [os.path.join(dir, name)] for a relative [name]. *)
Definition path_join (dir name : string) : string :=
  if Text.is_empty dir then name
  else if String.eqb (String.substring (String.length dir - 1) 1 dir) "/" then dir +:+ name
  else dir +:+ "/" +:+ name.

(** The module constant [_PROXY_EXE]. *)
Definition _PROXY_EXE (w : World E) : string :=
  path_join (package_dir w) "configurable-tls-proxy".

(** [subprocess.Popen(command, env=..., stdin=..., stdout=..., stderr=...,
    start_new_session=...)]: fails when the program cannot be executed,
    otherwise the child is running when the call returns. *)
Definition subprocess_Popen (command : list string) (environment : gmap string string)
           (i o e : Stdio) (new_session : bool) : M Popen := fun p w =>
  if executable w (hd "" command) then
    let proc := mkPopen (length (children w)) command environment i o e new_session in
    (Ok proc, p,
     mkWorld (environ w) (package_dir w) (executable w) (urandom w) (urandom_reads w)
             (free_port w) (ports_taken w) (log w) (children w ++ [proc])
             (signals w) (sent w) (engine w))
  else (Raise (OSError (hd "" command)), p, w).

(** [Popen.terminate()]. *)
Definition terminate (proc : Popen) : M unit :=
  update_world (fun w =>
    mkWorld (environ w) (package_dir w) (executable w) (urandom w) (urandom_reads w)
            (free_port w) (ports_taken w) (log w) (children w)
            (signals w ++ [(pid proc, SIGTERM)]) (sent w) (engine w)).

Definition is_2xx (c : Z) : bool := (200 <=? c) && (c <? 300).

(** The default of [HTTPRequest(max_redirects=...)]; [_api_request] builds
    its request without [follow_redirects] or [max_redirects], so tornado's
    defaults apply: redirects are followed, five at most. *)
Definition max_redirects : nat := 5.

(** The exchange behind one [fetch]: the request is attempted; while the
    answer is one tornado follows and redirects are left, the next request
    is attempted in its place.  The result is the list of requests
    attempted, the engine's state at the end and the last response. *)
Fixpoint exchange (redirects : nat) (req : HTTPRequest) (e : E)
  : list HTTPRequest * E * HTTPResponse :=
  let '(e', resp) := serve e req in
  match error resp, redirects with
  | None, S n =>
      match redirect req resp with
      | Some next =>
          let '(reqs, e'', final) := exchange n next e' in (req :: reqs, e'', final)
      | None => ([req], e', resp)
      end
  | _, _ => ([req], e', resp)
  end.

(** [AsyncHTTPClient().fetch(req)] with [raise_error] at its default: the
    exchange runs to its last response; an exchange that ended without an
    HTTP response raises its error, a response outside 200..299 is raised
    as [HTTPError] carrying it, any other is returned. *)
Definition fetch (req : HTTPRequest) : M HTTPResponse := fun p w =>
  let '(_, e', resp) := exchange max_redirects req (engine w) in
  let w' := mkWorld (environ w) (package_dir w) (executable w) (urandom w)
                    (urandom_reads w) (free_port w) (ports_taken w) (log w)
                    (children w) (signals w) (sent w ++ [req]) e' in
  match error resp with
  | Some description => (Raise (ClientError description), p, w')
  | None =>
      if is_2xx (code resp) then (Ok resp, p, w')
      else (Raise (HTTPError (code resp) resp), p, w')
  end.

(** [urlparse(u).netloc].  The [ValueError] carries the URL in the place
    of [urlparse]'s own message. *)
Definition netloc (u : string) : M string :=
  match urlparse_netloc u with
  | Some a => mret a
  | None => raise (ValueError u)
  end.

(** *** The class [Proxy] *)

(** [@default('api_url')]. *)
Definition _default_api_url : M string :=
  port ← random_port;
  mret ("http://localhost:" +:+ pretty port).

(** [@default('auth_token')]. *)
Definition _auth_token_default : M string :=
  token ← os_environ_get "CONFIG_TLS_PROXY_TOKEN" "";
  if Text.is_empty token then
    log_info "Generating new CONFIG_TLS_PROXY_TOKEN";;
    r ← os_urandom16;
    mret (Uuid.uuid4_hex r)
  else mret token.

(** Reading [self.api_url]. *)
Definition self_api_url : M string :=
  v ← self api_url;
  match v with
  | Assigned u => mret u
  | Unset => u ← _default_api_url; update_self (set_api_url u);; mret u
  end.

(** Reading [self.auth_token]. *)
Definition self_auth_token : M string :=
  v ← self auth_token;
  match v with
  | Assigned t => mret t
  | Unset => t ← _auth_token_default; update_self (set_auth_token t);; mret t
  end.

(** Reading [self.proxy_process], an attribute only [start] creates. *)
Definition self_proxy_process : M Popen :=
  v ← self proxy_process;
  match v with
  | Some proc => mret proc
  | None => raise (AttributeError "Proxy" "proxy_process")
  end.

(** [Proxy.start]. *)
Definition start : M unit :=
  address ← (u ← self public_url; netloc u);
  api_address ← (u ← self_api_url; netloc u);
  level ← self log_level;
  exe ← world _PROXY_EXE;
  let command := [exe;
                  "-address"; address;
                  "-api-address"; api_address;
                  "-log-level"; level_name level;
                  "-is-child-process"] in
  environment ← world environ;
  token ← self_auth_token;
  let environment := <["CONFIG_TLS_PROXY_TOKEN" := token]> environment in
  log_info "Starting the Dask Gateway Proxy...";;
  proc ← subprocess_Popen command environment PIPE Inherited Inherited true;
  update_self (set_proxy_process proc).

(** [Proxy.stop]. *)
Definition stop : M unit :=
  proc ← self_proxy_process;
  terminate proc.

(** The [body] argument of [_api_request]: a [dict] or text. *)
Inductive Body : Type :=
| BodyDict (d : json)
| BodyText (s : string).

(** [Proxy._api_request(url, method, body)]: a [dict] body is sent as
    JSON text; every request carries the token. *)
Definition _api_request (u : string) (m : string) (b : option Body) : M HTTPResponse :=
  let b := match b with
           | Some (BodyDict d) => Some (json_dumps d)
           | Some (BodyText s) => Some s
           | None => None
           end in
  token ← self_auth_token;
  let req := {| url := u; method := m;
                headers := [("Authorization", "token " +:+ token)];
                body := b |} in
  fetch req.

(** [Proxy.add_route(route, target)]. *)
Definition add_route (route target : string) : M unit :=
  log_debug ("Adding route " +:+ route +:+ " -> " +:+ target);;
  api ← self_api_url;
  _api_request (api +:+ "/api/routes/" +:+ route) "PUT"
               (Some (BodyDict (JDict [("target", JStr target)])));;
  mret tt.

(** [Proxy.delete_route(route)]. *)
Definition delete_route (route : string) : M unit :=
  log_debug ("Removing route " +:+ route);;
  api ← self_api_url;
  _api_request (api +:+ "/api/routes/" +:+ route) "DELETE" None;;
  mret tt.

(** [Proxy.get_all_routes()]. *)
Definition get_all_routes : M json :=
  api ← self_api_url;
  resp ← _api_request (api +:+ "/api/routes/") "GET" None;
  let text := decode_utf8_replace (response_body resp) in
  match json_loads text with
  | Some v => mret v
  | None => raise (JSONDecodeError text)
  end.

End Methods.

(** ** A reference implementation of the library interface

    CPython's behaviour on ASCII text: [json.dumps] with its default
    separators and [ensure_ascii], a [json.loads] for the JSON grammar,
    [urlsplit]'s network-location rule, and UTF-8 decoding that replaces
    ill-formed input by U+FFFD; with them the redirects tornado's
    [simple_httpclient] follows.

    Outside ASCII text and plain hosts it is an approximation.  [dumps]
    writes a byte above 127 inside a string as its own [\u00XX] escape,
    where [json.dumps] escapes the code point, and [loads] accepts a
    [\uXXXX] escape up to [00ff] only.  [netloc] follows [urlsplit] as
    it was before it learnt to ask for a letter at the head of a scheme,
    to strip leading blanks and embedded tabs and line ends, and to
    validate a bracketed host.  The theorems rest on the interface
    [Library] and its laws; this implementation serves the examples,
    which stay within ASCII text and plain hosts. *)

Module Reference.

Definition dquote : ascii := ascii_of_N 34.
Definition backslash : ascii := ascii_of_N 92.

Definition ascii_of_Z (n : Z) : ascii := ascii_of_N (Z.to_N n).

(** *** [json.dumps] *)

Definition hex4 (n : Z) : string :=
  String (Text.hex_digit (n / 4096 mod 16))
    (String (Text.hex_digit (n / 256 mod 16))
       (String (Text.hex_digit (n / 16 mod 16))
          (String (Text.hex_digit (n mod 16)) EmptyString))).

Definition escape_char (c : ascii) : string :=
  let n := Text.code c in
  if n =? 34 then String backslash (String dquote EmptyString)
  else if n =? 92 then String backslash (String backslash EmptyString)
  else if n =? 10 then String backslash "n"
  else if n =? 13 then String backslash "r"
  else if n =? 9 then String backslash "t"
  else if n =? 8 then String backslash "b"
  else if n =? 12 then String backslash "f"
  else if (32 <=? n) && (n <=? 126) then String c EmptyString
  else String backslash (String "u" (hex4 n)).

Fixpoint escape (s : string) : string :=
  match s with
  | EmptyString => EmptyString
  | String c s' => escape_char c +:+ escape s'
  end.

Definition quote (s : string) : string :=
  String dquote (escape s +:+ String dquote EmptyString).

Fixpoint dumps (v : json) : string :=
  match v with
  | JNull => "null"
  | JBool true => "true"
  | JBool false => "false"
  | JInt n => pretty n
  | JFloat numeral => numeral
  | JStr s => quote s
  | JList items => "[" +:+ String.concat ", " (map dumps items) +:+ "]"
  | JDict items =>
      "{" +:+ String.concat ", "
                (map (fun kv => match kv with
                                | (k, x) => quote k +:+ ": " +:+ dumps x
                                end) items) +:+ "}"
  end.

(** One dictionary item of a string table, as [dumps] writes it. *)
Definition item (kv : string * string) : string :=
  quote kv.1 +:+ ": " +:+ quote kv.2.

(** *** [json.loads] *)

Definition is_ws (c : ascii) : bool :=
  let n := Text.code c in (n =? 32) || (n =? 9) || (n =? 10) || (n =? 13).

Fixpoint skip_ws (s : string) : string :=
  match s with
  | EmptyString => EmptyString
  | String c s' => if is_ws c then skip_ws s' else s
  end.

Definition hex_any (c : ascii) : option Z :=
  let n := Text.code c in
  if (48 <=? n) && (n <=? 57) then Some (n - 48)
  else if (97 <=? n) && (n <=? 102) then Some (n - 87)
  else if (65 <=? n) && (n <=? 70) then Some (n - 55)
  else None.

Definition unhex4 (a b c d : ascii) : option Z :=
  match hex_any a, hex_any b, hex_any c, hex_any d with
  | Some x, Some y, Some z, Some t => Some (4096 * x + 256 * y + 16 * z + t)
  | _, _, _, _ => None
  end.

Definition unescape (e : ascii) : option ascii :=
  let n := Text.code e in
  if n =? 34 then Some dquote
  else if n =? 92 then Some backslash
  else if n =? 47 then Some "/"%char
  else if n =? 110 then Some (ascii_of_Z 10)
  else if n =? 114 then Some (ascii_of_Z 13)
  else if n =? 116 then Some (ascii_of_Z 9)
  else if n =? 98 then Some (ascii_of_Z 8)
  else if n =? 102 then Some (ascii_of_Z 12)
  else None.

Definition push (c : ascii) (r : option (string * string)) : option (string * string) :=
  match r with
  | Some (t, rest) => Some (String c t, rest)
  | None => None
  end.

(** The characters of a string literal after its opening quote, and
    what follows the closing quote. *)
Fixpoint string_body (s : string) : option (string * string) :=
  match s with
  | EmptyString => None
  | String c s1 =>
      if Text.code c =? 34 then Some (EmptyString, s1)
      else if Text.code c =? 92 then
        match s1 with
        | EmptyString => None
        | String e s2 =>
            match unescape e with
            | Some d => push d (string_body s2)
            | None =>
                if Text.code e =? 117 then
                  match s2 with
                  | String h1 (String h2 (String h3 (String h4 s3))) =>
                      match unhex4 h1 h2 h3 h4 with
                      | Some n => if n <? 256 then push (ascii_of_Z n) (string_body s3)
                                  else None
                      | None => None
                      end
                  | _ => None
                  end
                else None
            end
        end
      else if Text.code c <? 32 then None
      else push c (string_body s1)
  end.

Definition is_digit (c : ascii) : bool := (48 <=? Text.code c) && (Text.code c <=? 57).

Fixpoint span (f : ascii -> bool) (s : string) : string * string :=
  match s with
  | EmptyString => (EmptyString, EmptyString)
  | String c s' =>
      if f c then let '(a, b) := span f s' in (String c a, b)
      else (EmptyString, s)
  end.

Fixpoint decimal (acc : Z) (s : string) : Z :=
  match s with
  | EmptyString => acc
  | String c s' => decimal (10 * acc + (Text.code c - 48)) s'
  end.

(** A JSON number at the head of [s]: sign, integer part, then an
    optional fraction and exponent, which make it a float. *)
Definition number (s : string) : option (json * string) :=
  let '(sign, s1) := match s with
                     | String "-" r => ("-", r)
                     | _ => (EmptyString, s)
                     end in
  let '(int, s2) := span is_digit s1 in
  let int_ok := match int with
                | EmptyString => false
                | String "0" (String _ _) => false
                | _ => true
                end in
  if negb int_ok then None
  else
    let '(frac, s3) := match s2 with
                       | String "." r =>
                           let '(d, r') := span is_digit r in
                           if Text.is_empty d then (EmptyString, s2) else ("." +:+ d, r')
                       | _ => (EmptyString, s2)
                       end in
    let '(exp, s4) := match s3 with
                      | String e r =>
                          if (Text.code e =? 101) || (Text.code e =? 69) then
                            let '(sg, r1) := match r with
                                             | String "+" r' => ("+", r')
                                             | String "-" r' => ("-", r')
                                             | _ => (EmptyString, r)
                                             end in
                            let '(d, r2) := span is_digit r1 in
                            if Text.is_empty d then (EmptyString, s3)
                            else (String e sg +:+ d, r2)
                          else (EmptyString, s3)
                      | EmptyString => (EmptyString, s3)
                      end in
    if Text.is_empty frac && Text.is_empty exp then
      Some (JInt (if Text.is_empty sign then decimal 0 int else - decimal 0 int), s4)
    else Some (JFloat (sign +:+ int +:+ frac +:+ exp), s4).

(** The words [json.loads] accepts besides numbers. *)
Definition word (s : string) : option (json * string) :=
  match Text.strip_prefix "null" s with
  | Some r => Some (JNull, r)
  | None =>
  match Text.strip_prefix "true" s with
  | Some r => Some (JBool true, r)
  | None =>
  match Text.strip_prefix "false" s with
  | Some r => Some (JBool false, r)
  | None =>
  match Text.strip_prefix "NaN" s with
  | Some r => Some (JFloat "NaN", r)
  | None =>
  match Text.strip_prefix "Infinity" s with
  | Some r => Some (JFloat "Infinity", r)
  | None =>
  match Text.strip_prefix "-Infinity" s with
  | Some r => Some (JFloat "-Infinity", r)
  | None => number s
  end end end end end end.

Fixpoint value (fuel : nat) (s : string) : option (json * string) :=
  match fuel with
  | O => None
  | S fuel' =>
      match skip_ws s with
      | EmptyString => None
      | String c s1 =>
          if Text.code c =? 34 then
            match string_body s1 with
            | Some (t, r) => Some (JStr t, r)
            | None => None
            end
          else if Text.code c =? 123 then
            match skip_ws s1 with
            | String "}" r => Some (JDict [], r)
            | _ => match members fuel' s1 with
                   | Some (kvs, r) => Some (JDict kvs, r)
                   | None => None
                   end
            end
          else if Text.code c =? 91 then
            match skip_ws s1 with
            | String "]" r => Some (JList [], r)
            | _ => match elements fuel' s1 with
                   | Some (xs, r) => Some (JList xs, r)
                   | None => None
                   end
            end
          else word (String c s1)
      end
  end
with members (fuel : nat) (s : string) : option (list (string * json) * string) :=
  match fuel with
  | O => None
  | S fuel' =>
      match skip_ws s with
      | String c s1 =>
          if Text.code c =? 34 then
            match string_body s1 with
            | Some (k, r1) =>
                match skip_ws r1 with
                | String ":" r2 =>
                    match value fuel' r2 with
                    | Some (x, r3) =>
                        match skip_ws r3 with
                        | String "," r4 =>
                            match members fuel' r4 with
                            | Some (kvs, r5) => Some ((k, x) :: kvs, r5)
                            | None => None
                            end
                        | String "}" r4 => Some ([(k, x)], r4)
                        | _ => None
                        end
                    | None => None
                    end
                | _ => None
                end
            | None => None
            end
          else None
      | EmptyString => None
      end
  end
with elements (fuel : nat) (s : string) : option (list json * string) :=
  match fuel with
  | O => None
  | S fuel' =>
      match value fuel' s with
      | Some (x, r1) =>
          match skip_ws r1 with
          | String "," r2 =>
              match elements fuel' r2 with
              | Some (xs, r3) => Some (x :: xs, r3)
              | None => None
              end
          | String "]" r2 => Some ([x], r2)
          | _ => None
          end
      | None => None
      end
  end.

(** Assigning [d[k] = x] on a [dict]: an existing key keeps its place. *)
Fixpoint dict_set (k : string) (x : json) (d : list (string * json)) : list (string * json) :=
  match d with
  | [] => [(k, x)]
  | (k', x') :: d' => if String.eqb k k' then (k, x) :: d' else (k', x') :: dict_set k x d'
  end.

(** Every object of a parsed document becomes a [dict]: of two equal
    keys the later value is kept. *)
Fixpoint as_dicts (v : json) : json :=
  match v with
  | JList items => JList (map as_dicts items)
  | JDict items =>
      JDict (fold_left (fun d kv => match kv with
                                    | (k, x) => dict_set k (as_dicts x) d
                                    end) items [])
  | _ => v
  end.

Definition loads (s : string) : option json :=
  match value (S (String.length s)) s with
  | Some (v, r) => if Text.is_empty (skip_ws r) then Some (as_dicts v) else None
  | None => None
  end.

(** *** [bytes.decode('utf8', 'replace')] *)

(** U+FFFD in UTF-8. *)
Definition replacement : string :=
  String (ascii_of_Z 239) (String (ascii_of_Z 191) (String (ascii_of_Z 189) EmptyString)).

(** How many continuation bytes follow the lead byte [n]; 0 when [n]
    cannot start a sequence. *)
Definition trailing (n : Z) : nat :=
  if (194 <=? n) && (n <=? 223) then 1
  else if (224 <=? n) && (n <=? 239) then 2
  else if (240 <=? n) && (n <=? 244) then 3
  else 0.

(** The range allowed for the byte after the lead byte [n]. *)
Definition second_ok (n m : Z) : bool :=
  if n =? 224 then (160 <=? m) && (m <=? 191)
  else if n =? 237 then (128 <=? m) && (m <=? 159)
  else if n =? 240 then (144 <=? m) && (m <=? 191)
  else if n =? 244 then (128 <=? m) && (m <=? 143)
  else (128 <=? m) && (m <=? 191).

Definition continuation (m : Z) : bool := (128 <=? m) && (m <=? 191).

(** Well-formed sequences are kept; every maximal ill-formed run of
    bytes becomes one U+FFFD. *)
Fixpoint decode (s : string) : string :=
  match s with
  | EmptyString => EmptyString
  | String c1 s1 =>
      let n := Text.code c1 in
      if n <? 128 then String c1 (decode s1)
      else
        match trailing n with
        | O => replacement +:+ decode s1
        | S k =>
            match s1 with
            | EmptyString => replacement
            | String c2 s2 =>
                if negb (second_ok n (Text.code c2)) then replacement +:+ decode s1
                else
                  match k with
                  | O => String c1 (String c2 (decode s2))
                  | S k' =>
                      match s2 with
                      | EmptyString => replacement
                      | String c3 s3 =>
                          if negb (continuation (Text.code c3)) then replacement +:+ decode s2
                          else
                            match k' with
                            | O => String c1 (String c2 (String c3 (decode s3)))
                            | S _ =>
                                match s3 with
                                | EmptyString => replacement
                                | String c4 s4 =>
                                    if negb (continuation (Text.code c4))
                                    then replacement +:+ decode s3
                                    else String c1 (String c2 (String c3
                                           (String c4 (decode s4))))
                                end
                            end
                      end
                  end
            end
        end
  end.

(** *** [urlparse(url).netloc] *)

Definition is_scheme_char (c : ascii) : bool :=
  let n := Text.code c in
  ((97 <=? n) && (n <=? 122)) || ((65 <=? n) && (n <=? 90)) ||
  ((48 <=? n) && (n <=? 57)) || (n =? 43) || (n =? 45) || (n =? 46).

Definition is_colon (c : ascii) : bool := Text.code c =? 58.

(** [urlsplit]'s first step: [url] without its scheme, when the text up
    to the first colon is a scheme. *)
Definition after_scheme (url : string) : string :=
  let '(head, tail) := span (fun c => negb (is_colon c)) url in
  match tail with
  | EmptyString => url
  | String _ rest =>
      if Text.is_empty head then url
      else if String.eqb head "http" then rest
      else if Text.all_chars is_scheme_char head then
        if Text.is_empty rest || negb (Text.all_chars is_digit rest) then rest else url
      else url
  end.

Definition is_delimiter (c : ascii) : bool :=
  let n := Text.code c in (n =? 47) || (n =? 63) || (n =? 35).

Fixpoint contains (n : Z) (s : string) : bool :=
  match s with
  | EmptyString => false
  | String c s' => (Text.code c =? n) || contains n s'
  end.

Definition netloc (url : string) : option string :=
  match after_scheme url with
  | String "/" (String "/" rest) =>
      let nl := fst (span (fun c => negb (is_delimiter c)) rest) in
      if (contains 91 nl && negb (contains 93 nl)) || (contains 93 nl && negb (contains 91 nl))
      then None
      else Some nl
  | _ => Some EmptyString
  end.

(** *** The redirects tornado's HTTP client follows

    [simple_httpclient] of tornado 6.1 and later: [_should_follow_redirect]
    and the request [finish] fetches next.  Headers tornado adds to a
    request by itself ([Host], [Connection], [Accept-Encoding],
    [Content-Length]) are left out of the first request and of the next
    alike. *)

Definition lower (c : ascii) : ascii :=
  let n := Text.code c in
  if (65 <=? n) && (n <=? 90) then ascii_of_Z (n + 32) else c.

Fixpoint lowercase (s : string) : string :=
  match s with
  | EmptyString => EmptyString
  | String c s' => String (lower c) (lowercase s')
  end.

Definition same_header (a b : string) : bool :=
  String.eqb (lowercase a) (lowercase b).

(** [HTTPHeaders.get(name)]: names compare without case, repeated headers
    are joined with a comma. *)
Fixpoint header (name : string) (hs : list (string * string)) : option string :=
  match hs with
  | [] => None
  | (k, v) :: hs' =>
      if same_header k name then
        match header name hs' with
        | Some more => Some (v +:+ "," +:+ more)
        | None => Some v
        end
      else header name hs'
  end.

Definition without_header (name : string) (hs : list (string * string))
  : list (string * string) :=
  filter (fun kv => negb (same_header (fst kv) name)) hs.

(** The scheme of [url] and what follows its colon, when [url] has one. *)
Definition scheme_of (url : string) : option (string * string) :=
  let '(head, tail) := span (fun c => negb (is_colon c || is_delimiter c)) url in
  match head, tail with
  | String c _, String colon rest =>
      if is_colon colon && Text.all_chars is_scheme_char head &&
         negb (is_digit c) && negb (contains (Text.code c) "+-.")
      then Some (head, rest)
      else None
  | _, _ => None
  end.

(** The text up to and with the last slash of [path]. *)
Fixpoint directory (path : string) : string :=
  match path with
  | EmptyString => EmptyString
  | String c rest =>
      if contains 47 rest then String c (directory rest)
      else if Text.code c =? 47 then "/" else EmptyString
  end.

Definition is_query_or_fragment (c : ascii) : bool :=
  let n := Text.code c in (n =? 63) || (n =? 35).

(** [urllib.parse.urljoin(base, location)] for an [http] or [https]
    [base].  A location with a scheme of its own is the result as it
    stands; one that begins with a slash replaces the path of [base];
    any other is read in the directory of [base]'s path.  Dot segments
    are kept as they are. *)
Definition urljoin (base location : string) : string :=
  if Text.is_empty location then base
  else
    match scheme_of location with
    | Some _ => location
    | None =>
        match scheme_of base with
        | Some (scheme, String "/" (String "/" rest)) =>
            let '(nl, path) := span (fun c => negb (is_delimiter c)) rest in
            let root := scheme +:+ "://" +:+ nl in
            match location with
            | String "/" (String "/" _) => scheme +:+ ":" +:+ location
            | String "/" _ => root +:+ location
            | String c _ =>
                if is_query_or_fragment c then
                  root +:+ fst (span (fun c => negb (is_query_or_fragment c)) path) +:+ location
                else
                  let dir := directory (fst (span (fun c => negb (is_query_or_fragment c)) path)) in
                  root +:+ (if Text.is_empty dir then "/" else dir) +:+ location
            | EmptyString => base
            end
        | _ => location
        end
    end.

Definition follows (c : Z) : bool :=
  (c =? 301) || (c =? 302) || (c =? 303) || (c =? 307) || (c =? 308).

(** A 303 answer, and a 301 or 302 answer to a [POST], turn the next
    request into a [GET] without body; any other keeps method and body. *)
Definition becomes_get (c : Z) (m : string) : bool :=
  ((c =? 303) && negb (String.eqb m "HEAD")) ||
  (((c =? 301) || (c =? 302)) && String.eqb m "POST").

Definition redirect (req : HTTPRequest) (resp : HTTPResponse) : option HTTPRequest :=
  if follows (code resp) then
    match header "Location" (response_headers resp) with
    | Some location =>
        if becomes_get (code resp) (method req) then
          Some {| url := urljoin (url req) location;
                  method := "GET";
                  headers := without_header "Content-Length"
                               (without_header "Content-Type"
                                  (without_header "Content-Encoding"
                                     (without_header "Transfer-Encoding" (headers req))));
                  body := None |}
        else
          Some {| url := urljoin (url req) location;
                  method := method req;
                  headers := headers req;
                  body := body req |}
    | None => None
    end
  else None.

End Reference.

(** ** Percent-encoding of a path segment

    The encoding the specification asks for, [urllib.parse.quote(route,
    safe='')]: unreserved characters stand for themselves, every other
    byte is written [%XX]. *)

Module Percent.

Definition is_unreserved (c : ascii) : bool :=
  let n := Text.code c in
  ((97 <=? n) && (n <=? 122)) || ((65 <=? n) && (n <=? 90)) ||
  ((48 <=? n) && (n <=? 57)) ||
  (n =? 45) || (n =? 46) || (n =? 95) || (n =? 126).

Definition upper_hex_digit (d : Z) : ascii :=
  if d <? 10 then ascii_of_N (Z.to_N (48 + d)) else ascii_of_N (Z.to_N (55 + d)).

Definition encode_char (c : ascii) : string :=
  if is_unreserved c then String c EmptyString
  else String "%" (String (upper_hex_digit (Text.code c / 16))
                     (String (upper_hex_digit (Text.code c mod 16)) EmptyString)).

Fixpoint encode (s : string) : string :=
  match s with
  | EmptyString => EmptyString
  | String c s' => encode_char c +:+ encode s'
  end.

(** [urllib.parse.unquote]: [%XX] becomes the byte, anything else stays. *)
Fixpoint decode (s : string) : string :=
  match s with
  | EmptyString => EmptyString
  | String c s1 =>
      if Text.code c =? 37 then
        match s1 with
        | String h1 (String h2 s2) =>
            match Reference.hex_any h1, Reference.hex_any h2 with
            | Some x, Some y => String (Reference.ascii_of_Z (16 * x + y)) (decode s2)
            | _, _ => String c (decode s1)
            end
        | _ => String c (decode s1)
        end
      else String c (decode s1)
  end.

End Percent.

(** ** The routing engine's management API *)

Module Engine.

(** The engine's state: the token and API address it was started with,
    and its route table. *)
Record State : Type := mkState {
  token : string;
  base : string;
  routes : gmap string string
}.

Definition respond (c : Z) (b : string) : HTTPResponse :=
  {| code := c; response_headers := []; response_body := b; error := None |}.

Definition set_routes (t : gmap string string) (st : State) : State :=
  {| token := token st; base := base st; routes := t |}.

(** The path of a request target: what precedes its query or fragment. *)
Definition path_of (target : string) : string :=
  fst (Reference.span (fun c => negb ((Text.code c =? 63) || (Text.code c =? 35))) target).

Fixpoint assoc (k : string) (items : list (string * json)) : option json :=
  match items with
  | [] => None
  | (k', x) :: items' => if String.eqb k k' then Some x else assoc k items'
  end.

(** The [target] member of a request body [{"target": ...}]. *)
Definition target_of `{Library} (b : option string) : option string :=
  match b with
  | Some text =>
      match json_loads text with
      | Some (JDict items) =>
          match assoc "target" items with
          | Some (JStr t) => Some t
          | _ => None
          end
      | _ => None
      end
  | None => None
  end.

(** Modelled from the spec: the engine behind the management API (the
    [configurable-tls-proxy] program, whose source is not part of
    [dask_gateway/proxy/core.py]).  Section 6 of the specification: every
    request carries [Authorization: token <token>]; [PUT
    /api/routes/{route}] with body [{"target": t}] writes the key,
    overwriting an existing one; [DELETE /api/routes/{route}] removes it
    and answers 2xx also when it is absent; [GET /api/routes/] answers
    with the table as one JSON object; [{route}] is a percent-encoded
    path segment. *)
Definition handle `{Library} (st : State) (req : HTTPRequest) : State * HTTPResponse :=
  if negb (bool_decide (headers req = [("Authorization", "token " +:+ token st)]))
  then (st, respond 403 "")
  else
    match Text.strip_prefix (base st +:+ "/api/routes/") (url req) with
    | None => (st, respond 404 "")
    | Some rest =>
        let segment := path_of rest in
        if String.eqb (method req) "GET" then
          if Text.is_empty segment
          then (st, respond 200 (json_dumps (str_dict (map_to_list (routes st)))))
          else (st, respond 404 "")
        else if String.eqb (method req) "PUT" then
          match target_of (body req) with
          | Some t => (set_routes (<[Percent.decode segment := t]> (routes st)) st,
                       respond 201 "")
          | None => (st, respond 400 "")
          end
        else if String.eqb (method req) "DELETE" then
          (set_routes (delete (Percent.decode segment) (routes st)) st, respond 204 "")
        else (st, respond 405 "")
    end.

End Engine.

(** ** Sequences of method calls *)

Section Programs.
Context {E : Type}.
Variable serve : E -> HTTPRequest -> E * HTTPResponse.
Context `{Library}.

(** The integer the next [os.urandom(16)] read yields in [w]. *)
Definition next_draw (w : World E) : Z := urandom w (urandom_reads w) mod 2 ^ 128.

(** [w] with the variable [name] removed from [os.environ]. *)
Definition unset_env (name : string) (w : World E) : World E :=
  mkWorld (delete name (environ w)) (package_dir w) (executable w) (urandom w)
          (urandom_reads w) (free_port w) (ports_taken w) (log w) (children w)
          (signals w) (sent w) (engine w).

(** The token [self.auth_token] evaluates to in a given state: the
    assigned one, or the default that would be computed now. *)
Definition token_of (p : Proxy) (w : World E) : string :=
  match auth_token p with
  | Assigned t => t
  | Unset =>
      let t := default "" (environ w !! "CONFIG_TLS_PROXY_TOKEN") in
      if Text.is_empty t then Uuid.uuid4_hex (next_draw w) else t
  end.

(** The address [self.api_url] evaluates to in a given state. *)
Definition api_of (p : Proxy) (w : World E) : string :=
  match api_url p with
  | Assigned u => u
  | Unset => "http://localhost:" +:+ pretty (free_port w (ports_taken w))
  end.

(** The world after [self.api_url] has been read: a port was taken if
    the default had to be computed. *)
Definition after_api (p : Proxy) (w : World E) : World E :=
  match api_url p with
  | Assigned _ => w
  | Unset => snd (random_port p w)
  end.

(** The world after [self.auth_token] has been read: when the default had
    to be generated, one log record was written and 16 random bytes were
    consumed. *)
Definition after_token (p : Proxy) (w : World E) : World E :=
  match auth_token p with
  | Assigned _ => w
  | Unset =>
      if Text.is_empty (default "" (environ w !! "CONFIG_TLS_PROXY_TOKEN"))
      then snd (os_urandom16 p (log_record LogInfo "Generating new CONFIG_TLS_PROXY_TOKEN" w))
      else w
  end.

(** The object once both attributes have been read. *)
Definition resolved (p : Proxy) (w : World E) : Proxy :=
  set_auth_token (token_of p w) (set_api_url (api_of p w) p).

(** The requests attempted in the exchange that [fetch] runs for [req]
    in [w]: [req] first, then the requests of the redirects followed. *)
Definition attempts (req : HTTPRequest) (w : World E) : list HTTPRequest :=
  fst (fst (exchange serve max_redirects req (engine w))).

(** The world after [req] was fetched. *)
Definition deliver (req : HTTPRequest) (w : World E) : World E :=
  mkWorld (environ w) (package_dir w) (executable w) (urandom w) (urandom_reads w)
          (free_port w) (ports_taken w) (log w) (children w) (signals w)
          (sent w ++ [req]) (snd (fst (exchange serve max_redirects req (engine w)))).

(** The engine's state after it served the requests [reqs] in order. *)
Definition served (reqs : list HTTPRequest) (e : E) : E :=
  fold_left (fun st req => fst (serve st req)) reqs e.

(** The response to [req] itself in [w]. *)
Definition first_answer (req : HTTPRequest) (w : World E) : HTTPResponse :=
  snd (serve (engine w) req).

(** The response the exchange for [req] ends with in [w]: the response
    to the last request attempted. *)
Definition answer (req : HTTPRequest) (w : World E) : HTTPResponse :=
  snd (exchange serve max_redirects req (engine w)).

(** Whether tornado follows the response [resp] to [req] while redirects
    are left. *)
Definition followed (req : HTTPRequest) (resp : HTTPResponse) : bool :=
  match error resp, redirect req resp with
  | None, Some _ => true
  | _, _ => false
  end.

(** The request each route operation builds. *)
Definition route_request (p : Proxy) (w : World E) (m path : string) (b : option string)
  : HTTPRequest :=
  {| url := api_of p w +:+ path; method := m;
     headers := [("Authorization", "token " +:+ token_of p w)];
     body := b |}.

(** What [fetch] makes of the response an exchange ends with. *)
Definition outcome (resp : HTTPResponse) : result HTTPResponse :=
  match error resp with
  | Some description => Raise (ClientError description)
  | None => if is_2xx (code resp) then Ok resp else Raise (HTTPError (code resp) resp)
  end.

(** The [Popen] call [start] makes, for the addresses [urlparse] found. *)
Definition launch (p : Proxy) (w : World E) (address api_address : string) : Popen :=
  {| pid := length (children w);
     args := [_PROXY_EXE w; "-address"; address; "-api-address"; api_address;
              "-log-level"; level_name (log_level p); "-is-child-process"];
     env := <["CONFIG_TLS_PROXY_TOKEN" := token_of p w]> (environ w);
     stdin := PIPE; stdout := Inherited; stderr := Inherited;
     start_new_session := true |}.

(** The requests carry the token [t] and nothing else. *)
Definition carries_token (t : string) (req : HTTPRequest) : Prop :=
  headers req = [("Authorization", "token " +:+ t)].

(** The child was given the token [t] in its environment. *)
Definition child_has_token (t : string) (proc : Popen) : Prop :=
  env proc !! "CONFIG_TLS_PROXY_TOKEN" = Some t.

Inductive Call : Type :=
| CallStart
| CallStop
| CallAddRoute (route target : string)
| CallDeleteRoute (route : string)
| CallGetAllRoutes.

(** One call made by the owner of the object: whether it returned
    normally, and the object and world it leaves.  The owner goes on
    whether or not the call raised. *)
Definition run_call (c : Call) (p : Proxy) (w : World E) : bool * Proxy * World E :=
  match c with
  | CallStart => let '(r, p', w') := start p w in (is_ok r, p', w')
  | CallStop => let '(r, p', w') := stop p w in (is_ok r, p', w')
  | CallAddRoute r t => let '(r, p', w') := add_route serve r t p w in (is_ok r, p', w')
  | CallDeleteRoute r => let '(r, p', w') := delete_route serve r p w in (is_ok r, p', w')
  | CallGetAllRoutes => let '(r, p', w') := get_all_routes serve p w in (is_ok r, p', w')
  end.

Fixpoint run_calls (cs : list Call) (p : Proxy) (w : World E) : Proxy * World E :=
  match cs with
  | [] => (p, w)
  | c :: cs' => let '(_, p', w') := run_call c p w in run_calls cs' p' w'
  end.

Definition is_start (c : Call) : bool :=
  match c with CallStart => true | _ => false end.

(** Whether some [start] of the sequence returned normally. *)
Fixpoint start_completed (cs : list Call) (p : Proxy) (w : World E) : bool :=
  match cs with
  | [] => false
  | c :: cs' =>
      let '(ok, p', w') := run_call c p w in
      (is_start c && ok) || start_completed cs' p' w'
  end.

(** The text [_api_request] puts in the request for a [body] argument. *)
Definition request_body (b : option Body) : option string :=
  match b with
  | Some (BodyDict d) => Some (json_dumps d)
  | Some (BodyText s) => Some s
  | None => None
  end.

(** A route operation returns nothing: only the failure of its request
    is passed on. *)
Definition discard {A} (r : result A) : result unit :=
  match r with
  | Ok _ => Ok tt
  | Raise e => Raise e
  end.

(** [json.loads(resp.body.decode('utf8', 'replace'))]. *)
Definition decoded (resp : HTTPResponse) : result json :=
  match json_loads (decode_utf8_replace (response_body resp)) with
  | Some v => Ok v
  | None => Raise (JSONDecodeError (decode_utf8_replace (response_body resp)))
  end.

(** The world after [proc] was spawned. *)
Definition spawn (proc : Popen) (w : World E) : World E :=
  mkWorld (environ w) (package_dir w) (executable w) (urandom w) (urandom_reads w)
          (free_port w) (ports_taken w) (log w) (children w ++ [proc])
          (signals w) (sent w) (engine w).

End Programs.

(** The engine was started with the token and the API address the
    object resolves to. *)
Definition in_sync (p : Proxy) (w : World Engine.State) : Prop :=
  Engine.token (engine w) = token_of p w /\ Engine.base (engine w) = api_of p w.

(** ** Sample states *)

(** A host where the engine is installed and nothing has happened yet:
    its environment, and the bytes [os.urandom] will return. *)
Definition host {E : Type} (environment : gmap string string) (entropy : nat -> Z) (e : E)
  : World E :=
  mkWorld environment "/srv/dask_gateway/proxy" (fun _ => true)
          entropy 0 (fun n => 8000 + Z.of_nat n) 0 [] [] [] [] e.

(** No token configured. *)
Definition fresh_world {E : Type} (e : E) : World E :=
  host ∅ (fun n => Z.of_nat n) e.

(** [CONFIG_TLS_PROXY_TOKEN] exported. *)
Definition world_with_token {E : Type} (t : string) (e : E) : World E :=
  host {["CONFIG_TLS_PROXY_TOKEN" := t]} (fun n => Z.of_nat n) e.

(** A host on which the engine program is missing. *)
Definition bare_host {E : Type} (e : E) : World E :=
  mkWorld ∅ "/srv/dask_gateway/proxy" (fun _ => false)
          (fun n => Z.of_nat n) 0 (fun n => 8000 + Z.of_nat n) 0 [] [] [] [] e.

(** An engine listening on the first free port of [host], started with
    the token [t] and holding the routes [table]. *)
Definition engine_on_host (t : string) (table : gmap string string) : Engine.State :=
  {| Engine.token := t; Engine.base := "http://localhost:8000"; Engine.routes := table |}.

(** A host with [CONFIG_TLS_PROXY_TOKEN=s3cret] and an engine without
    routes that was started with that token. *)
Definition engine_world : World Engine.State :=
  world_with_token "s3cret" (engine_on_host "s3cret" ∅).

(** An engine that knows no route and answers every request with 404. *)
Definition not_found_engine (st : unit) (req : HTTPRequest) : unit * HTTPResponse :=
  (st, {| code := 404; response_headers := []; response_body := "Not Found";
          error := None |}).

(** A management API that has moved: a request for an address under
    [http://localhost:8000] is answered with status [c] and, as
    [Location], the same path under [http://localhost:9000]; any other
    request is answered with 200 and an empty JSON object.  The state
    lists the requests received. *)
Definition moved_engine (c : Z) (seen : list HTTPRequest) (req : HTTPRequest)
  : list HTTPRequest * HTTPResponse :=
  ((seen ++ [req])%list,
   match Text.strip_prefix "http://localhost:8000" (url req) with
   | Some path =>
       {| code := c;
          response_headers := [("Location", "http://localhost:9000" +:+ path)];
          response_body := EmptyString; error := None |}
   | None =>
       {| code := 200; response_headers := []; response_body := "{}"; error := None |}
   end).

(** A management API that answers every request with a 302 back to the
    URL requested, and counts the requests received. *)
Definition looping_engine (seen : nat) (req : HTTPRequest) : nat * HTTPResponse :=
  (S seen,
   {| code := 302; response_headers := [("Location", url req)];
      response_body := EmptyString; error := None |}).

(** A fresh host in front of the moved API, which has received nothing. *)
Definition moved_world : World (list HTTPRequest) := fresh_world [].

(** No engine is listening: every request ends in a refused connection. *)
Definition no_engine (st : unit) (req : HTTPRequest) : unit * HTTPResponse :=
  (st, {| code := 599; response_headers := []; response_body := EmptyString;
          error := Some "Connection refused" |}).

Definition has_body (req : HTTPRequest) : bool :=
  match body req with Some _ => true | None => false end.

(** ** Facts about the hexadecimal rendering *)

Section HexFacts.
Import Text.

Lemma hex_digit_lower (d : Z) : 0 <= d < 16 -> is_lower_hex (hex_digit d) = true.
Proof.
  intros Hd.
  assert (Hc : d = 0 \/ d = 1 \/ d = 2 \/ d = 3 \/ d = 4 \/ d = 5 \/ d = 6 \/ d = 7 \/
               d = 8 \/ d = 9 \/ d = 10 \/ d = 11 \/ d = 12 \/ d = 13 \/ d = 14 \/ d = 15)
    by lia.
  repeat (destruct Hc as [-> | Hc]; [reflexivity |]). subst d. reflexivity.
Qed.

Lemma hex_value_digit (d : Z) : 0 <= d < 16 -> hex_value (hex_digit d) = d.
Proof.
  intros Hd.
  assert (Hc : d = 0 \/ d = 1 \/ d = 2 \/ d = 3 \/ d = 4 \/ d = 5 \/ d = 6 \/ d = 7 \/
               d = 8 \/ d = 9 \/ d = 10 \/ d = 11 \/ d = 12 \/ d = 13 \/ d = 14 \/ d = 15)
    by lia.
  repeat (destruct Hc as [-> | Hc]; [reflexivity |]). subst d. reflexivity.
Qed.

Lemma all_chars_app f (s t : string) :
  all_chars f (s +:+ t) = all_chars f s && all_chars f t.
Proof. induction s as [| c s IH]; simpl; [reflexivity |]. rewrite IH. apply andb_assoc. Qed.

Lemma all_chars_repeat f c n : f c = true -> all_chars f (repeat_char c n) = true.
Proof. intros Hc. induction n as [| n IH]; simpl; [reflexivity |]. now rewrite Hc, IH. Qed.

Lemma length_repeat_char c n : String.length (repeat_char c n) = n.
Proof. induction n as [| n IH]; simpl; congruence. Qed.

Lemma length_append (s t : string) :
  String.length (s +:+ t) = (String.length s + String.length t)%nat.
Proof. induction s as [| c s IH]; [reflexivity | simpl; congruence]. Qed.

Lemma append_assoc (s t u : string) : (s +:+ t) +:+ u = s +:+ (t +:+ u).
Proof. induction s as [| c s IH]; [reflexivity | simpl; now rewrite IH]. Qed.

Lemma hex_digits_lower fuel : forall n acc,
  all_chars is_lower_hex acc = true ->
  all_chars is_lower_hex (hex_digits fuel n acc) = true.
Proof.
  induction fuel as [| fuel IH]; intros n acc Hacc; simpl; [exact Hacc |].
  assert (Hd : all_chars is_lower_hex (String (hex_digit (n mod 16)) acc) = true).
  { simpl. rewrite hex_digit_lower, Hacc; [reflexivity |]. apply Z.mod_pos_bound. lia. }
  destruct (n / 16 =? 0); [exact Hd | now apply IH].
Qed.

(** A number below [16^k] is written with at most [k] digits. *)
Lemma hex_digits_length fuel : forall n acc (k : nat),
  (1 <= k)%nat -> 0 <= n < 16 ^ Z.of_nat k ->
  (String.length (hex_digits fuel n acc) <= String.length acc + k)%nat.
Proof.
  induction fuel as [| fuel IH]; intros n acc k Hk Hn; simpl; [lia |].
  destruct (n / 16 =? 0) eqn:Hq; simpl; [lia |].
  apply Z.eqb_neq in Hq.
  destruct k as [| [| k]]; [lia | |].
  - exfalso. apply Hq. apply Z.div_small. simpl in Hn. lia.
  - specialize (IH (n / 16) (String (hex_digit (n mod 16)) acc) (S k)).
    simpl in IH. etransitivity; [apply IH |]; [lia | | lia].
    split; [apply Z.div_pos; lia |].
    apply Z.div_lt_upper_bound; [lia |].
    replace (Z.of_nat (S (S k))) with (Z.succ (Z.of_nat (S k))) in Hn by lia.
    rewrite Z.pow_succ_r in Hn by lia. lia.
Qed.

Lemma format_032x_length (n : Z) :
  0 <= n < 2 ^ 128 -> String.length (format_032x n) = 32%nat.
Proof.
  intros Hn. unfold format_032x, zfill, format_x.
  rewrite length_append, length_repeat_char.
  pose proof (hex_digits_length (S (Z.to_nat (Z.log2 n))) n EmptyString 32) as Hlen.
  simpl String.length in Hlen.
  assert (String.length (hex_digits (S (Z.to_nat (Z.log2 n))) n "") <= 32)%nat.
  { apply Hlen; [lia |]. change (16 ^ Z.of_nat 32) with (2 ^ 128). exact Hn. }
  lia.
Qed.

Lemma format_032x_lower (n : Z) : all_chars is_lower_hex (format_032x n) = true.
Proof.
  unfold format_032x, zfill, format_x.
  rewrite all_chars_app, all_chars_repeat by reflexivity.
  now rewrite hex_digits_lower.
Qed.

Lemma hex_read_app (s t : string) : forall acc,
  hex_read acc (s +:+ t) = hex_read (hex_read acc s) t.
Proof. induction s as [| c s IH]; intros acc; simpl; [reflexivity | apply IH]. Qed.

Lemma hex_digits_acc fuel : forall n acc,
  hex_digits fuel n acc = hex_digits fuel n EmptyString +:+ acc.
Proof.
  induction fuel as [| fuel IH]; intros n acc; simpl; [reflexivity |].
  destruct (n / 16 =? 0); [reflexivity |].
  rewrite (IH _ (String _ acc)), (IH _ (String _ EmptyString)).
  now rewrite append_assoc.
Qed.

Lemma hex_read_digits fuel : forall n,
  0 <= n < 16 ^ Z.of_nat fuel -> hex_read 0 (hex_digits fuel n EmptyString) = n.
Proof.
  induction fuel as [| fuel IH]; intros n Hn.
  - simpl in *. lia.
  - simpl. pose proof (Z.mod_pos_bound n 16 ltac:(lia)) as Hm.
    destruct (n / 16 =? 0) eqn:Hq.
    + apply Z.eqb_eq in Hq. simpl. rewrite hex_value_digit by lia.
      pose proof (Z.div_mod n 16 ltac:(lia)). lia.
    + rewrite hex_digits_acc, hex_read_app, IH.
      * simpl. rewrite hex_value_digit by lia.
        pose proof (Z.div_mod n 16 ltac:(lia)). lia.
      * split; [apply Z.div_pos; lia |].
        apply Z.div_lt_upper_bound; [lia |].
        rewrite Nat2Z.inj_succ, Z.pow_succ_r in Hn by lia. lia.
Qed.

Lemma hex_read_zeros k : hex_read 0 (repeat_char "0" k) = 0.
Proof. induction k as [| k IH]; simpl; [reflexivity | exact IH]. Qed.

Lemma hex_read_format (n : Z) : 0 <= n -> hex_read 0 (format_032x n) = n.
Proof.
  intros Hn. unfold format_032x, zfill, format_x.
  rewrite hex_read_app, hex_read_zeros. apply hex_read_digits.
  split; [exact Hn |].
  destruct (Z.eq_dec n 0) as [-> | Hnz]; [reflexivity |].
  pose proof (Z.log2_spec n ltac:(lia)) as [_ Hlog].
  pose proof (Z.log2_nonneg n) as Hl.
  rewrite Nat2Z.inj_succ, Z2Nat.id by lia.
  eapply Z.lt_le_trans; [exact Hlog |].
  change 16 with (2 ^ 4). rewrite <- Z.pow_mul_r by lia.
  apply Z.pow_le_mono_r; lia.
Qed.

Lemma format_032x_inj (a b : Z) :
  0 <= a -> 0 <= b -> format_032x a = format_032x b -> a = b.
Proof.
  intros Ha Hb Heq.
  rewrite <- (hex_read_format a Ha), <- (hex_read_format b Hb). now rewrite Heq.
Qed.

End HexFacts.

(** ** Facts about [uuid4] *)

Section UuidFacts.
Import Uuid.

(** [uuid4] keeps the bits outside [fixed_bits] and overwrites the rest. *)
Lemma uuid4_int_split (r : Z) :
  uuid4_int r = Z.lor (Z.land r (Z.lnot fixed_bits)) fixed_value.
Proof.
  unfold uuid4_int, fixed_value. cbv zeta.
  rewrite Z.land_lor_distr_l, <- Z.land_assoc, <- Z.lor_assoc.
  rewrite (Z.lor_comm (Z.shiftl 4 76)). reflexivity.
Qed.

Lemma free_part_recovered (r : Z) :
  Z.land (uuid4_int r) (Z.lnot fixed_value) = Z.land r (Z.lnot fixed_bits).
Proof.
  rewrite uuid4_int_split, Z.land_lor_distr_l, <- Z.land_assoc.
  change (Z.land fixed_value (Z.lnot fixed_value)) with 0.
  change (Z.land (Z.lnot fixed_bits) (Z.lnot fixed_value)) with (Z.lnot fixed_bits).
  apply Z.lor_0_r.
Qed.

Lemma uuid4_int_eq_iff (r1 r2 : Z) :
  uuid4_int r1 = uuid4_int r2 <->
  Z.land r1 (Z.lnot fixed_bits) = Z.land r2 (Z.lnot fixed_bits).
Proof.
  split; intros H.
  - rewrite <- !free_part_recovered. now rewrite H.
  - rewrite !uuid4_int_split. now rewrite H.
Qed.

Lemma uuid4_int_range (r : Z) : 0 <= r < 2 ^ 128 -> 0 <= uuid4_int r < 2 ^ 128.
Proof.
  intros [Hlo Hhi]. rewrite uuid4_int_split.
  assert (Hfree : Z.land r (Z.lnot fixed_bits) = Z.land r (Z.land (Z.lnot fixed_bits) (Z.ones 128))).
  { rewrite (Z.land_comm (Z.lnot fixed_bits)), Z.land_assoc, Z.land_ones by lia.
    now rewrite Z.mod_small by lia. }
  rewrite Hfree.
  set (m := Z.land (Z.lnot fixed_bits) (Z.ones 128)).
  assert (Hm : 0 <= m) by (vm_compute; discriminate).
  assert (Hx : 0 <= Z.land r m) by (apply Z.land_nonneg; lia).
  assert (Hv : 0 <= fixed_value) by (vm_compute; discriminate).
  split; [apply Z.lor_nonneg; lia |].
  destruct (Z.eq_dec (Z.lor (Z.land r m) fixed_value) 0) as [-> | Hnz]; [lia |].
  apply Z.log2_lt_pow2; [pose proof (proj2 (Z.lor_nonneg _ _) (conj Hx Hv)); lia |].
  rewrite Z.log2_lor by lia.
  apply Z.max_lub_lt; [| vm_compute; reflexivity].
  eapply Z.le_lt_trans; [apply Z.log2_land; lia |].
  apply Z.min_lt_iff. right. vm_compute. reflexivity.
Qed.

Lemma uuid4_hex_length (r : Z) :
  0 <= r < 2 ^ 128 -> String.length (uuid4_hex r) = 32%nat.
Proof. intros Hr. apply format_032x_length, uuid4_int_range, Hr. Qed.

Lemma uuid4_hex_lower (r : Z) : Text.all_chars Text.is_lower_hex (uuid4_hex r) = true.
Proof. apply format_032x_lower. Qed.

Lemma uuid4_hex_eq_iff (r1 r2 : Z) :
  0 <= r1 < 2 ^ 128 -> 0 <= r2 < 2 ^ 128 ->
  (uuid4_hex r1 = uuid4_hex r2 <->
   Z.land r1 (Z.lnot fixed_bits) = Z.land r2 (Z.lnot fixed_bits)).
Proof.
  intros H1 H2. rewrite <- uuid4_int_eq_iff. split; intros H.
  - apply format_032x_inj; [apply uuid4_int_range, H1 | apply uuid4_int_range, H2 | exact H].
  - unfold uuid4_hex. now rewrite H.
Qed.

End UuidFacts.

(** ** The reference library meets the interface *)

Section ReferenceFacts.
Import Reference.

Lemma decode_ascii_id (b : string) :
  Text.all_chars is_ascii b = true -> decode b = b.
Proof.
  induction b as [| c b IH]; intros Hb; [reflexivity |].
  simpl in Hb. apply andb_true_iff in Hb as [Hc Hb]. unfold is_ascii in Hc.
  simpl. rewrite Hc. now rewrite IH.
Qed.

Lemma escape_char_ascii (c : ascii) : Text.all_chars is_ascii (escape_char c) = true.
Proof. destruct c as [[] [] [] [] [] [] [] []]; reflexivity. Qed.

Lemma escape_ascii (s : string) : Text.all_chars is_ascii (escape s) = true.
Proof.
  induction s as [| c s IH]; [reflexivity |].
  simpl. now rewrite all_chars_app, escape_char_ascii, IH.
Qed.

Lemma quote_ascii (s : string) : Text.all_chars is_ascii (quote s) = true.
Proof. unfold quote. simpl. now rewrite all_chars_app, escape_ascii. Qed.

Lemma dumps_str_dict (kvs : list (string * string)) :
  dumps (str_dict kvs) = "{" +:+ String.concat ", " (map item kvs) +:+ "}".
Proof.
  unfold str_dict. simpl. rewrite map_map. do 2 f_equal.
Qed.

Lemma concat_items_ascii (kvs : list (string * string)) :
  Text.all_chars is_ascii (String.concat ", " (map item kvs)) = true.
Proof.
  induction kvs as [| kv kvs IH]; [reflexivity |].
  assert (Hi : Text.all_chars is_ascii (item kv) = true).
  { unfold item. now rewrite !all_chars_app, !quote_ascii. }
  destruct kvs as [| kv' kvs]; [exact Hi |].
  change (String.concat ", " (map item (kv :: kv' :: kvs)))
    with (item kv +:+ ", " +:+ String.concat ", " (map item (kv' :: kvs))).
  now rewrite !all_chars_app, Hi, IH.
Qed.

Lemma dumps_ascii (kvs : list (string * string)) :
  Text.all_chars is_ascii (dumps (str_dict kvs)) = true.
Proof.
  rewrite dumps_str_dict. simpl. now rewrite all_chars_app, concat_items_ascii.
Qed.

(** Reading back one escaped character. *)
Lemma string_body_escape_char (c : ascii) (rest : string) :
  string_body (escape_char c +:+ rest) = push c (string_body rest).
Proof. destruct c as [[] [] [] [] [] [] [] []]; reflexivity. Qed.

Lemma string_body_escape (s rest : string) :
  string_body (escape s +:+ String dquote rest) = Some (s, rest).
Proof.
  induction s as [| c s IH]; [reflexivity |].
  simpl escape. rewrite append_assoc, string_body_escape_char, IH. reflexivity.
Qed.

Lemma quote_app (s rest : string) :
  quote s +:+ rest = String dquote (escape s +:+ String dquote rest).
Proof. unfold quote. simpl. now rewrite append_assoc. Qed.

Lemma item_app (kv : string * string) (rest : string) :
  item kv +:+ rest =
  String dquote (escape kv.1 +:+ String dquote
    (String ":" (String " " (String dquote (escape kv.2 +:+ String dquote rest))))).
Proof. unfold item. now rewrite !append_assoc, !quote_app. Qed.

Lemma members_last (k v : string) (fuel : nat) (rest : string) :
  members (S (S fuel))
    (String dquote (escape k +:+ String dquote
       (String ":" (String " " (String dquote (escape v +:+ String dquote
          (String "}" rest))))))) =
  Some ([(k, JStr v)], rest).
Proof.
  simpl. rewrite string_body_escape. simpl. rewrite string_body_escape. reflexivity.
Qed.

Lemma members_more (k v : string) (fuel : nat) (tail : string) :
  members (S (S fuel))
    (String dquote (escape k +:+ String dquote
       (String ":" (String " " (String dquote (escape v +:+ String dquote
          (String "," (String " " tail)))))))) =
  match members (S fuel) tail with
  | Some (kvs, r) => Some ((k, JStr v) :: kvs, r)
  | None => None
  end.
Proof.
  simpl. rewrite string_body_escape. simpl. rewrite string_body_escape. reflexivity.
Qed.

(** [members] reads back the items of a non-empty string table. *)
Lemma members_items (kvs : list (string * string)) : forall (kv : string * string) fuel rest,
  (length kvs + 2 <= fuel)%nat ->
  members fuel (String.concat ", " (map item (kv :: kvs)) +:+ String "}" rest) =
  Some (map (fun kv => (kv.1, JStr kv.2)) (kv :: kvs), rest).
Proof.
  induction kvs as [| kv' kvs IH]; intros kv fuel rest Hfuel.
  - destruct fuel as [| [| fuel]]; [simpl in Hfuel; lia .. |].
    change (String.concat ", " (map item [kv])) with (item kv).
    rewrite item_app. apply members_last.
  - destruct fuel as [| [| fuel]]; [simpl in Hfuel; lia .. |].
    change (String.concat ", " (map item (kv :: kv' :: kvs)))
      with (item kv +:+ ", " +:+ String.concat ", " (map item (kv' :: kvs))).
    rewrite !append_assoc, item_app.
    change (", " +:+ ?x) with (String "," (String " " x)).
    rewrite members_more, IH by (simpl in *; lia). reflexivity.
Qed.

Lemma dict_set_fresh (k : string) (x : json) (d : list (string * json)) :
  k ∉ map fst d -> dict_set k x d = (d ++ [(k, x)])%list.
Proof.
  induction d as [| [k' x'] d IH]; intros Hk; [reflexivity |].
  simpl in *. apply not_elem_of_cons in Hk as [Hne Hk].
  destruct (String.eqb_spec k k') as [-> | _]; [done |].
  now rewrite IH.
Qed.

Lemma fold_dict_set (kvs : list (string * string)) : forall d : list (string * json),
  NoDup (map fst d ++ map fst kvs)%list ->
  fold_left (fun d kv => match kv with (k, x) => dict_set k (as_dicts x) d end)
            (map (fun kv => (kv.1, JStr kv.2)) kvs) d =
  (d ++ map (fun kv => (kv.1, JStr kv.2)) kvs)%list.
Proof.
  induction kvs as [| [k v] kvs IH]; intros d Hd; simpl.
  - now rewrite app_nil_r.
  - simpl in Hd. apply NoDup_app in Hd as (Hd1 & Hd2 & Hd3).
    rewrite dict_set_fresh.
    + rewrite IH, <- app_assoc; [reflexivity |].
      rewrite map_app. simpl. rewrite <- app_assoc. simpl.
      apply NoDup_app. split_and!; [exact Hd1 | exact Hd2 | exact Hd3].
    + intros Hin. apply (Hd2 k Hin). left.
Qed.

Lemma concat_items_length (kvs : list (string * string)) :
  (length kvs <= String.length (String.concat ", " (map item kvs)))%nat.
Proof.
  induction kvs as [| kv kvs IH]; [simpl; lia |].
  assert (Hi : (1 <= String.length (item kv))%nat).
  { unfold item, quote. simpl. lia. }
  destruct kvs as [| kv' kvs]; [simpl in *; lia |].
  change (String.concat ", " (map item (kv :: kv' :: kvs)))
    with (item kv +:+ ", " +:+ String.concat ", " (map item (kv' :: kvs))).
  rewrite !length_append. simpl in *. lia.
Qed.

Lemma loads_dumps_str_dict (kvs : list (string * string)) :
  NoDup (map fst kvs) -> loads (dumps (str_dict kvs)) = Some (str_dict kvs).
Proof.
  intros Hnd. rewrite dumps_str_dict. unfold loads.
  destruct kvs as [| kv kvs]; [reflexivity |].
  set (doc := String.concat ", " (map item (kv :: kvs))).
  assert (Hdoc : exists t, doc = String dquote t).
  { unfold doc. destruct kvs; simpl; unfold item, quote; simpl; eauto. }
  destruct Hdoc as [t Ht].
  assert (Hfuel : (length kvs + 2 <= String.length ("{" +:+ doc +:+ "}"))%nat).
  { pose proof (concat_items_length (kv :: kvs)) as Hl. fold doc in Hl.
    simpl. rewrite length_append. simpl in *. lia. }
  pose proof (members_items kvs kv _ EmptyString Hfuel) as Hm. fold doc in Hm.
  change ("{" +:+ doc +:+ "}") with (String "{" (doc +:+ "}")) in *.
  remember (String.length (String "{" (doc +:+ "}"))) as n.
  simpl value. rewrite Ht in *. simpl (skip_ws _). cbv iota beta.
  change (String dquote t +:+ "}") with (String dquote (t +:+ "}")) in *.
  simpl. simpl in Hm. rewrite Hm. simpl.
  pose proof (fold_dict_set (kv :: kvs) []) as Hf. simpl in Hf.
  unfold str_dict. simpl. rewrite Hf; [reflexivity |]. exact Hnd.
Qed.

Lemma redirect_follows_3xx (req : HTTPRequest) (resp : HTTPResponse) (next : HTTPRequest) :
  Reference.redirect req resp = Some next -> 300 <= code resp < 400.
Proof.
  unfold Reference.redirect, Reference.follows.
  destruct (code resp =? 301) eqn:H1; [lia |].
  destruct (code resp =? 302) eqn:H2; [lia |].
  destruct (code resp =? 303) eqn:H3; [lia |].
  destruct (code resp =? 307) eqn:H7; [lia |].
  destruct (code resp =? 308) eqn:H8; [lia |].
  simpl. discriminate.
Qed.

End ReferenceFacts.

(** The reference implementation as an instance of the interface. *)
Definition ReferenceLibrary : Library :=
  {| urlparse_netloc := Reference.netloc;
     json_dumps := Reference.dumps;
     json_loads := Reference.loads;
     decode_utf8_replace := Reference.decode;
     redirect := Reference.redirect;
     decode_ascii := decode_ascii_id;
     json_dumps_ascii := dumps_ascii;
     json_loads_dumps := loads_dumps_str_dict;
     redirect_3xx := redirect_follows_3xx |}.

(** ** Token resolution *)

Section TokenResolution.
Context {E : Type}.

#[local] Arguments Uuid.uuid4_hex : simpl never.
#[local] Arguments Z.modulo : simpl never.
#[local] Arguments Z.pow : simpl never.

Lemma is_empty_true (s : string) : Text.is_empty s = true <-> s = EmptyString.
Proof. destruct s; simpl; split; congruence. Qed.

Lemma is_empty_false (s : string) : Text.is_empty s = false <-> s <> EmptyString.
Proof. destruct s; simpl; split; congruence. Qed.

Lemma next_draw_range (w : World E) : 0 <= next_draw w < 2 ^ 128.
Proof. apply Z.mod_pos_bound. reflexivity. Qed.

Lemma auth_token_default_supplied (p : Proxy) (w : World E) (t : string) :
  environ w !! "CONFIG_TLS_PROXY_TOKEN" = Some t -> t <> EmptyString ->
  _auth_token_default p w = (Ok t, p, w).
Proof.
  intros Henv Ht. unfold _auth_token_default, os_environ_get, world, mbind, M_bind.
  rewrite Henv. simpl. apply is_empty_false in Ht. now rewrite Ht.
Qed.

Lemma auth_token_default_generated (p : Proxy) (w : World E) :
  default EmptyString (environ w !! "CONFIG_TLS_PROXY_TOKEN") = EmptyString ->
  _auth_token_default p w =
  (Ok (Uuid.uuid4_hex (next_draw w)), p,
   snd (os_urandom16 p (log_record LogInfo "Generating new CONFIG_TLS_PROXY_TOKEN" w))).
Proof.
  intros Henv. unfold _auth_token_default, os_environ_get, world, mbind, M_bind.
  rewrite Henv. reflexivity.
Qed.

Lemma uuid4_hex_nonempty (r : Z) : 0 <= r < 2 ^ 128 -> Uuid.uuid4_hex r <> EmptyString.
Proof.
  intros Hr Heq. pose proof (uuid4_hex_length r Hr) as Hlen.
  rewrite Heq in Hlen. discriminate.
Qed.

(** C2, as the code has it.  A non-empty [CONFIG_TLS_PROXY_TOKEN] is
    returned unchanged and leaves the object and the world as they were,
    so every repetition returns it again.  Otherwise the token is
    [uuid4().hex] of the next 16 random bytes: 32 lower-case hexadecimal
    characters, in which six bits (version and variant) are fixed, so that
    two draws give the same token exactly when they agree on the other
    122 bits. *)
Theorem token_resolution (p : Proxy) (w : World E) :
  let supplied := default EmptyString (environ w !! "CONFIG_TLS_PROXY_TOKEN") in
  (supplied <> EmptyString -> _auth_token_default p w = (Ok supplied, p, w)) /\
  (supplied = EmptyString ->
   fst (fst (_auth_token_default p w)) = Ok (Uuid.uuid4_hex (next_draw w))) /\
  (forall r, 0 <= r < 2 ^ 128 ->
     String.length (Uuid.uuid4_hex r) = 32%nat /\
     Text.all_chars Text.is_lower_hex (Uuid.uuid4_hex r) = true) /\
  (forall r1 r2, 0 <= r1 < 2 ^ 128 -> 0 <= r2 < 2 ^ 128 ->
     (Uuid.uuid4_hex r1 = Uuid.uuid4_hex r2 <->
      Z.land r1 (Z.lnot Uuid.fixed_bits) = Z.land r2 (Z.lnot Uuid.fixed_bits))) /\
  Uuid.fixed_bits = 2 ^ 79 + 2 ^ 78 + 2 ^ 77 + 2 ^ 76 + 2 ^ 63 + 2 ^ 62.
Proof.
  cbv zeta. split_and!.
  - intros Hs. destruct (environ w !! "CONFIG_TLS_PROXY_TOKEN") as [t |] eqn:Henv;
      simpl in Hs; [| congruence].
    now apply auth_token_default_supplied.
  - intros Hs. now rewrite auth_token_default_generated.
  - intros r Hr. split; [now apply uuid4_hex_length | apply uuid4_hex_lower].
  - intros r1 r2 H1 H2. now apply uuid4_hex_eq_iff.
  - reflexivity.
Qed.

(** C10: an empty [CONFIG_TLS_PROXY_TOKEN] is handled as an absent one, a
    fresh token is generated, and no resolution yields the empty token. *)
Theorem empty_token_regenerated (p : Proxy) (w : World E) :
  (environ w !! "CONFIG_TLS_PROXY_TOKEN" = Some EmptyString ->
   fst (fst (_auth_token_default p w)) = Ok (Uuid.uuid4_hex (next_draw w)) /\
   fst (fst (_auth_token_default p w)) =
   fst (fst (_auth_token_default p (unset_env "CONFIG_TLS_PROXY_TOKEN" w)))) /\
  (exists t, fst (fst (_auth_token_default p w)) = Ok t /\ t <> EmptyString).
Proof.
  split.
  - intros Henv. rewrite !auth_token_default_generated.
    + split; reflexivity.
    + simpl. now rewrite lookup_delete_eq.
    + now rewrite Henv.
  - destruct (environ w !! "CONFIG_TLS_PROXY_TOKEN") as [t |] eqn:Henv.
    + destruct (decide (t = EmptyString)) as [-> | Ht].
      * rewrite auth_token_default_generated by now rewrite Henv.
        eexists. split; [reflexivity |]. apply uuid4_hex_nonempty, next_draw_range.
      * rewrite (auth_token_default_supplied p w t Henv Ht). eauto.
    + rewrite auth_token_default_generated by now rewrite Henv.
      eexists. split; [reflexivity |]. apply uuid4_hex_nonempty, next_draw_range.
Qed.

End TokenResolution.

(** ** Equations of the methods *)

Section MethodFacts.
Context {E : Type}.
Variable serve : E -> HTTPRequest -> E * HTTPResponse.
Context `{Library}.

#[local] Arguments Uuid.uuid4_hex : simpl never.
#[local] Arguments Z.modulo : simpl never.
#[local] Arguments Z.pow : simpl never.
#[local] Arguments pretty : simpl never.

Lemma bind_ok {A B} (m : M A) (k : A -> M B) (p p' : Proxy) (w w' : World E) (a : A) :
  m p w = (Ok a, p', w') -> (x ← m; k x) p w = k a p' w'.
Proof. intros Hm. unfold mbind, M_bind. now rewrite Hm. Qed.

Lemma bind_raise {A B} (m : M A) (k : A -> M B) (p p' : Proxy) (w w' : World E) (e : exn) :
  m p w = (Raise e, p', w') -> (x ← m; k x) p w = (Raise e, p', w').
Proof. intros Hm. unfold mbind, M_bind. now rewrite Hm. Qed.

Lemma self_api_url_eq (p : Proxy) (w : World E) :
  self_api_url p w = (Ok (api_of p w), set_api_url (api_of p w) p, after_api p w).
Proof. destruct p as [lvl pub [| u] tok proc]; reflexivity. Qed.

Lemma self_auth_token_eq (p : Proxy) (w : World E) :
  self_auth_token p w =
  (Ok (token_of p w), set_auth_token (token_of p w) p, after_token p w).
Proof.
  destruct p as [lvl pub u [| t] proc]; [| reflexivity].
  unfold self_auth_token, token_of, after_token, _auth_token_default, os_environ_get,
    world, self, mbind, M_bind. simpl.
  destruct (Text.is_empty (default "" (environ w !! "CONFIG_TLS_PROXY_TOKEN"))); reflexivity.
Qed.

Lemma fetch_eq (req : HTTPRequest) (p : Proxy) (w : World E) :
  fetch serve req p w = (outcome (answer serve req w), p, deliver serve req w).
Proof.
  unfold fetch, outcome, answer, deliver.
  destruct (exchange serve max_redirects req (engine w)) as [[reqs e'] resp].
  cbn [fst snd].
  destruct (error resp); [reflexivity |].
  destruct (is_2xx (code resp)); reflexivity.
Qed.

(** *** What reading an attribute leaves unchanged *)

Lemma after_token_frame (p : Proxy) (w : World E) :
  environ (after_token p w) = environ w /\
  package_dir (after_token p w) = package_dir w /\
  executable (after_token p w) = executable w /\
  free_port (after_token p w) = free_port w /\
  ports_taken (after_token p w) = ports_taken w /\
  children (after_token p w) = children w /\
  signals (after_token p w) = signals w /\
  sent (after_token p w) = sent w /\
  engine (after_token p w) = engine w.
Proof.
  unfold after_token. destruct (auth_token p); [| repeat split; reflexivity].
  destruct (Text.is_empty _); repeat split; reflexivity.
Qed.

Lemma after_api_frame (p : Proxy) (w : World E) :
  environ (after_api p w) = environ w /\
  package_dir (after_api p w) = package_dir w /\
  executable (after_api p w) = executable w /\
  urandom (after_api p w) = urandom w /\
  urandom_reads (after_api p w) = urandom_reads w /\
  children (after_api p w) = children w /\
  signals (after_api p w) = signals w /\
  sent (after_api p w) = sent w /\
  engine (after_api p w) = engine w.
Proof. unfold after_api. destruct (api_url p); repeat split; reflexivity. Qed.

Lemma sent_after_token (p : Proxy) (w : World E) : sent (after_token p w) = sent w.
Proof. apply after_token_frame. Qed.

Lemma children_after_token (p : Proxy) (w : World E) :
  children (after_token p w) = children w.
Proof. apply after_token_frame. Qed.

Lemma engine_after_token (p : Proxy) (w : World E) : engine (after_token p w) = engine w.
Proof. apply after_token_frame. Qed.

Lemma sent_after_api (p : Proxy) (w : World E) : sent (after_api p w) = sent w.
Proof. apply after_api_frame. Qed.

Lemma children_after_api (p : Proxy) (w : World E) : children (after_api p w) = children w.
Proof. apply after_api_frame. Qed.

Lemma engine_after_api (p : Proxy) (w : World E) : engine (after_api p w) = engine w.
Proof. apply after_api_frame. Qed.

Lemma token_of_after_api (p : Proxy) (w : World E) (u : string) :
  token_of (set_api_url u p) (after_api p w) = token_of p w.
Proof. unfold after_api. destruct (api_url p); reflexivity. Qed.

Lemma token_of_resolved (p : Proxy) (w w' : World E) :
  token_of (resolved p w) w' = token_of p w.
Proof. reflexivity. Qed.

Lemma answer_after_token (req : HTTPRequest) (p : Proxy) (w : World E) :
  answer serve req (after_token p w) = answer serve req w.
Proof. unfold answer. now rewrite (proj2 (proj2 (proj2 (proj2 (proj2 (proj2 (proj2 (proj2 (after_token_frame p w))))))))). Qed.

Lemma answer_after_api (req : HTTPRequest) (p : Proxy) (w : World E) :
  answer serve req (after_api p w) = answer serve req w.
Proof. unfold answer, after_api. destruct (api_url p); reflexivity. Qed.

(** *** [_api_request] *)

Lemma api_request_eq (u m : string) (b : option Body) (p : Proxy) (w : World E) :
  let req := {| url := u; method := m;
                headers := [("Authorization", "token " +:+ token_of p w)];
                body := request_body b |} in
  _api_request serve u m b p w =
  (outcome (answer serve req w), set_auth_token (token_of p w) p,
   deliver serve req (after_token p w)).
Proof.
  cbv zeta. unfold _api_request.
  erewrite bind_ok by apply self_auth_token_eq.
  rewrite fetch_eq, answer_after_token. reflexivity.
Qed.

(** *** The route operations *)

Lemma add_route_eq (route target : string) (p : Proxy) (w : World E) :
  let req := route_request p w "PUT" ("/api/routes/" +:+ route)
               (Some (json_dumps (JDict [("target", JStr target)]))) in
  add_route serve route target p w =
  (discard (outcome (answer serve req w)), resolved p w,
   deliver serve req
     (after_token (set_api_url (api_of p w) p)
        (after_api p (log_record LogDebug
                        ("Adding route " +:+ route +:+ " -> " +:+ target) w)))).
Proof.
  cbv zeta. unfold add_route.
  erewrite bind_ok by reflexivity.
  erewrite bind_ok by apply self_api_url_eq.
  unfold mbind at 1, M_bind at 1. rewrite api_request_eq.
  rewrite token_of_after_api, answer_after_api.
  unfold route_request, resolved. simpl.
  destruct (outcome _); reflexivity.
Qed.

Lemma delete_route_eq (route : string) (p : Proxy) (w : World E) :
  let req := route_request p w "DELETE" ("/api/routes/" +:+ route) None in
  delete_route serve route p w =
  (discard (outcome (answer serve req w)), resolved p w,
   deliver serve req
     (after_token (set_api_url (api_of p w) p)
        (after_api p (log_record LogDebug ("Removing route " +:+ route) w)))).
Proof.
  cbv zeta. unfold delete_route.
  erewrite bind_ok by reflexivity.
  erewrite bind_ok by apply self_api_url_eq.
  unfold mbind at 1, M_bind at 1. rewrite api_request_eq.
  rewrite token_of_after_api, answer_after_api.
  unfold route_request, resolved. simpl.
  destruct (outcome _); reflexivity.
Qed.

Lemma get_all_routes_eq (p : Proxy) (w : World E) :
  let req := route_request p w "GET" "/api/routes/" None in
  get_all_routes serve p w =
  (match outcome (answer serve req w) with
   | Ok resp => decoded resp
   | Raise e => Raise e
   end,
   resolved p w,
   deliver serve req (after_token (set_api_url (api_of p w) p) (after_api p w))).
Proof.
  cbv zeta. unfold get_all_routes.
  erewrite bind_ok by apply self_api_url_eq.
  unfold mbind at 1, M_bind at 1. rewrite api_request_eq.
  rewrite token_of_after_api, answer_after_api.
  unfold route_request, resolved, decoded. simpl.
  destruct (outcome _) as [resp | e]; [| reflexivity].
  destruct (json_loads _); reflexivity.
Qed.

(** *** [start] and [stop] *)

Lemma stop_eq (p : Proxy) (w : World E) :
  stop p w =
  match proxy_process p with
  | Some proc => terminate proc p w
  | None => (Raise (AttributeError "Proxy" "proxy_process"), p, w)
  end.
Proof. unfold stop, self_proxy_process, self, mbind, M_bind. destruct (proxy_process p); reflexivity. Qed.

Lemma start_bad_public_url (p : Proxy) (w : World E) :
  urlparse_netloc (public_url p) = None ->
  start p w = (Raise (ValueError (public_url p)), p, w).
Proof.
  intros Hn. unfold start, netloc, self, mbind, M_bind. now rewrite Hn.
Qed.

Lemma start_bad_api_url (p : Proxy) (w : World E) (a : string) :
  urlparse_netloc (public_url p) = Some a ->
  urlparse_netloc (api_of p w) = None ->
  start p w = (Raise (ValueError (api_of p w)), set_api_url (api_of p w) p, after_api p w).
Proof.
  intros Ha Hb. unfold start.
  erewrite bind_ok; cycle 1.
  { unfold netloc, self, mbind, M_bind. rewrite Ha. reflexivity. }
  erewrite bind_raise; [reflexivity |].
  erewrite bind_ok by apply self_api_url_eq.
  unfold netloc. rewrite Hb. reflexivity.
Qed.

Lemma start_eq (p : Proxy) (w : World E) (a b : string) :
  urlparse_netloc (public_url p) = Some a ->
  urlparse_netloc (api_of p w) = Some b ->
  let w' := log_record LogInfo "Starting the Dask Gateway Proxy..."
              (after_token (set_api_url (api_of p w) p) (after_api p w)) in
  start p w =
  if executable w (_PROXY_EXE w)
  then (Ok tt, set_proxy_process (launch p w a b) (resolved p w), spawn (launch p w a b) w')
  else (Raise (OSError (_PROXY_EXE w)), resolved p w, w').
Proof.
  intros Ha Hb. cbv zeta. unfold start.
  erewrite bind_ok; cycle 1.
  { unfold netloc, self, mbind, M_bind. rewrite Ha. reflexivity. }
  erewrite bind_ok; cycle 1.
  { erewrite bind_ok by apply self_api_url_eq. unfold netloc. rewrite Hb. reflexivity. }
  erewrite bind_ok by reflexivity.
  erewrite bind_ok by reflexivity.
  erewrite bind_ok by reflexivity.
  erewrite bind_ok by apply self_auth_token_eq.
  erewrite bind_ok by reflexivity.
  rewrite token_of_after_api.
  destruct (after_api_frame p w) as (Hen & Hpk & Hex & _ & _ & Hch & _).
  destruct (after_token_frame (set_api_url (api_of p w) p) (after_api p w))
    as (Hen' & Hpk' & Hex' & _ & _ & Hch' & _).
  unfold subprocess_Popen, mbind, M_bind, update_self, _PROXY_EXE, launch, spawn, resolved.
  simpl. rewrite Hex', Hex, Hpk, Hch', Hch, Hen.
  destruct (executable w _); reflexivity.
Qed.

End MethodFacts.

(** ** One call at a time *)

Section Calls.
Context {E : Type}.
Variable serve : E -> HTTPRequest -> E * HTTPResponse.
Context `{Library}.

(** What one call may do: it never changes the token the object resolves
    to, every request it fetches and every child it spawns carries that
    token, and only a [start] that returns normally creates
    [proxy_process]. *)
Lemma run_call_invariant (c : Call) (p : Proxy) (w : World E) :
  let '(ok, p', w') := run_call serve c p w in
  token_of p' w' = token_of p w /\
  (exists reqs procs,
     sent w' = (sent w ++ reqs)%list /\
     children w' = (children w ++ procs)%list /\
     Forall (carries_token (token_of p w)) reqs /\
     Forall (child_has_token (token_of p w)) procs) /\
  (is_start c && ok = false -> proxy_process p' = proxy_process p).
Proof.
  destruct c as [| | route target | route |]; simpl.
  - (* start *)
    destruct (urlparse_netloc (public_url p)) as [a |] eqn:Ha.
    + destruct (urlparse_netloc (api_of p w)) as [b |] eqn:Hb.
      * rewrite (start_eq p w a b Ha Hb).
        destruct (executable w (_PROXY_EXE w)); simpl.
        -- split_and!; [reflexivity | | discriminate].
           exists [], [launch p w a b].
           rewrite app_nil_r, children_after_token, children_after_api,
             sent_after_token, sent_after_api.
           split_and!; [reflexivity | reflexivity | constructor |].
           constructor; [| constructor]. unfold child_has_token, launch. simpl.
           apply lookup_insert_eq.
        -- split_and!; [reflexivity | | reflexivity].
           exists [], [].
           rewrite !app_nil_r, children_after_token, children_after_api,
             sent_after_token, sent_after_api.
           split_and!; [reflexivity | reflexivity | constructor | constructor].
      * rewrite (start_bad_api_url p w a Ha Hb). simpl.
        split_and!; [apply token_of_after_api | | reflexivity].
        exists [], []. rewrite !app_nil_r, children_after_api, sent_after_api.
        split_and!; [reflexivity | reflexivity | constructor | constructor].
    + rewrite (start_bad_public_url p w Ha). simpl.
      split_and!; [reflexivity | | reflexivity].
      exists [], []. rewrite !app_nil_r.
      split_and!; [reflexivity | reflexivity | constructor | constructor].
  - (* stop *)
    rewrite stop_eq. destruct (proxy_process p) as [proc |] eqn:Hp; simpl.
    + split_and!; [reflexivity | | intros _; exact Hp].
      exists [], []. rewrite !app_nil_r.
      split_and!; [reflexivity | reflexivity | constructor | constructor].
    + split_and!; [reflexivity | | intros _; exact Hp].
      exists [], []. rewrite !app_nil_r.
      split_and!; [reflexivity | reflexivity | constructor | constructor].
  - (* add_route *)
    rewrite add_route_eq. simpl.
    split_and!; [reflexivity | | reflexivity].
    eexists [_], [].
    rewrite app_nil_r, children_after_token, children_after_api,
      sent_after_token, sent_after_api. simpl.
    split_and!; [reflexivity | reflexivity | | constructor].
    constructor; [reflexivity | constructor].
  - (* delete_route *)
    rewrite delete_route_eq. simpl.
    split_and!; [reflexivity | | reflexivity].
    eexists [_], [].
    rewrite app_nil_r, children_after_token, children_after_api,
      sent_after_token, sent_after_api. simpl.
    split_and!; [reflexivity | reflexivity | | constructor].
    constructor; [reflexivity | constructor].
  - (* get_all_routes *)
    rewrite get_all_routes_eq. simpl.
    split_and!; [reflexivity | | reflexivity].
    eexists [_], [].
    rewrite app_nil_r, children_after_token, children_after_api,
      sent_after_token, sent_after_api.
    split_and!; [reflexivity | reflexivity | | constructor].
    constructor; [reflexivity | constructor].
Qed.

(** C5: whatever the owner calls, in whatever order, every request of the
    route operations carries [Authorization: token t] and every engine
    [start] launches finds [CONFIG_TLS_PROXY_TOKEN=t] in its environment,
    for the one token [t] the object resolved to at the beginning; the
    token the object resolves to never changes.  Each route operation
    gives exactly one such request to [fetch]. *)
Theorem one_token_for_engine_and_requests (cs : list Call) (p : Proxy) (w : World E) :
  (let '(p', w') := run_calls serve cs p w in
   token_of p' w' = token_of p w /\
   exists reqs procs,
     sent w' = (sent w ++ reqs)%list /\
     children w' = (children w ++ procs)%list /\
     Forall (carries_token (token_of p w)) reqs /\
     Forall (child_has_token (token_of p w)) procs) /\
  (forall route target,
     exists req, sent (snd (add_route serve route target p w)) = (sent w ++ [req])%list /\
                 carries_token (token_of p w) req) /\
  (forall route,
     exists req, sent (snd (delete_route serve route p w)) = (sent w ++ [req])%list /\
                 carries_token (token_of p w) req) /\
  (exists req, sent (snd (get_all_routes serve p w)) = (sent w ++ [req])%list /\
               carries_token (token_of p w) req).
Proof.
  split_and!.
  - revert p w. induction cs as [| c cs IH]; intros p w; simpl.
    + split; [reflexivity |]. exists [], []. rewrite !app_nil_r.
      split_and!; [reflexivity | reflexivity | constructor | constructor].
    + pose proof (run_call_invariant c p w) as Hc.
      destruct (run_call serve c p w) as [[ok p1] w1].
      destruct Hc as (Htok & (reqs & procs & Hs & Hc & Hr & Hp) & _).
      specialize (IH p1 w1). destruct (run_calls serve cs p1 w1) as [p' w'].
      destruct IH as (Htok' & reqs' & procs' & Hs' & Hc' & Hr' & Hp').
      rewrite Htok in *. split; [exact Htok' |].
      exists (reqs ++ reqs')%list, (procs ++ procs')%list.
      rewrite Hs', Hc', Hs, Hc, <- !app_assoc.
      split_and!; [reflexivity | reflexivity | |]; now apply Forall_app.
  - intros route target. rewrite add_route_eq. eexists. simpl.
    rewrite sent_after_token, sent_after_api. split; reflexivity.
  - intros route. rewrite delete_route_eq. eexists. simpl.
    rewrite sent_after_token, sent_after_api. split; reflexivity.
  - rewrite get_all_routes_eq. eexists. simpl.
    rewrite sent_after_token, sent_after_api. split; reflexivity.
Qed.

(** C9: as long as no [start] has returned normally, [stop] raises
    [AttributeError] for the missing [proxy_process] attribute and changes
    nothing: no signal is sent. *)
Theorem stop_before_start_raises (cs : list Call) (p : Proxy) (w : World E) :
  proxy_process p = None ->
  start_completed serve cs p w = false ->
  let '(p', w') := run_calls serve cs p w in
  stop p' w' = (Raise (AttributeError "Proxy" "proxy_process"), p', w').
Proof.
  revert p w. induction cs as [| c cs IH]; intros p w Hp Hs; simpl in *.
  - rewrite stop_eq, Hp. reflexivity.
  - pose proof (run_call_invariant c p w) as Hc.
    destruct (run_call serve c p w) as [[ok p1] w1].
    destruct Hc as (_ & _ & Hproc).
    apply orb_false_iff in Hs as [Hs1 Hs2].
    apply IH; [| exact Hs2]. rewrite Hproc by exact Hs1. exact Hp.
Qed.

End Calls.

(** ** The route client *)

Section RouteClient.
Context {E : Type}.
Variable serve : E -> HTTPRequest -> E * HTTPResponse.
Context `{Library}.

Lemma outcome_ok_iff (resp : HTTPResponse) :
  discard (outcome resp) = Ok tt <-> error resp = None /\ is_2xx (code resp) = true.
Proof.
  unfold outcome. destruct (error resp); simpl.
  - split; [discriminate | intros [? _]; discriminate].
  - destruct (is_2xx (code resp)); simpl; split; try tauto; try discriminate.
    intros [_ ?]; discriminate.
Qed.

Lemma outcome_ok (resp : HTTPResponse) :
  error resp = None -> is_2xx (code resp) = true -> outcome resp = Ok resp.
Proof. unfold outcome. now intros -> ->. Qed.

Lemma outcome_raise (resp : HTTPResponse) :
  error resp = None -> is_2xx (code resp) = false ->
  outcome resp = Raise (HTTPError (code resp) resp).
Proof. unfold outcome. now intros -> ->. Qed.

Lemma outcome_error (resp : HTTPResponse) (description : string) :
  error resp = Some description -> outcome resp = Raise (ClientError description).
Proof. unfold outcome. now intros ->. Qed.

(** *** The exchange behind [fetch] *)

Lemma followed_3xx (req : HTTPRequest) (resp : HTTPResponse) :
  followed req resp = true -> error resp = None /\ 300 <= code resp < 400.
Proof.
  unfold followed. destruct (error resp); [discriminate |].
  destruct (redirect req resp) as [next |] eqn:Hr; [| discriminate].
  intros _. split; [reflexivity | exact (redirect_3xx _ _ _ Hr)].
Qed.

Lemma not_3xx_not_followed (req : HTTPRequest) (resp : HTTPResponse) :
  code resp < 300 \/ 400 <= code resp -> followed req resp = false.
Proof.
  intros Hc. destruct (followed req resp) eqn:Hf; [| reflexivity].
  apply followed_3xx in Hf. lia.
Qed.

Lemma exchange_final (n : nat) (req : HTTPRequest) (e : E) :
  followed req (snd (serve e req)) = false ->
  exchange serve n req e = ([req], fst (serve e req), snd (serve e req)).
Proof.
  unfold followed. destruct n; cbn [exchange];
    destruct (serve e req) as [e' resp]; cbn [fst snd];
    destruct (error resp); try reflexivity.
  destruct (redirect req resp); [discriminate | reflexivity].
Qed.

Lemma exchange_followed (n : nat) (req : HTTPRequest) (e : E) :
  followed req (snd (serve e req)) = true ->
  exists next : HTTPRequest,
    redirect req (snd (serve e req)) = Some next /\
    exchange serve (S n) req e =
    (req :: fst (fst (exchange serve n next (fst (serve e req)))),
     snd (fst (exchange serve n next (fst (serve e req)))),
     snd (exchange serve n next (fst (serve e req)))).
Proof.
  unfold followed. cbn [exchange].
  destruct (serve e req) as [e' resp]; cbn [fst snd].
  destruct (error resp); [discriminate |].
  destruct (redirect req resp) as [next |]; [| discriminate].
  intros _. exists next. split; [reflexivity |].
  now destruct (exchange serve n next e') as [[reqs e''] final].
Qed.

Lemma exchange_zero (req : HTTPRequest) (e : E) :
  exchange serve 0 req e = ([req], fst (serve e req), snd (serve e req)).
Proof.
  cbn [exchange]. destruct (serve e req) as [e' resp]; cbn [fst snd].
  now destruct (error resp).
Qed.

Lemma last_default {A : Type} (a : A) (l : list A) (d d' : A) :
  List.last (a :: l) d = List.last (a :: l) d'.
Proof. revert a. induction l as [| b l IH]; intros a; [reflexivity | exact (IH b)]. Qed.

(** The requests of an exchange begin with the request fetched and are
    followed by one request for each redirect; the engine ends in the
    state it reaches by serving them in order, and the last response is
    its response to the last of them. *)
Lemma exchange_trace (n : nat) (req : HTTPRequest) (e : E) :
  (exists more : list HTTPRequest,
     fst (fst (exchange serve n req e)) = req :: more /\ (length more <= n)%nat) /\
  snd (fst (exchange serve n req e)) = served serve (fst (fst (exchange serve n req e))) e /\
  snd (exchange serve n req e) =
  snd (serve (served serve (List.removelast (fst (fst (exchange serve n req e)))) e)
             (List.last (fst (fst (exchange serve n req e))) req)).
Proof.
  revert req e. induction n as [| n IH]; intros req e.
  - rewrite exchange_zero. cbn [fst snd].
    split_and!; [exists []; split; [reflexivity | simpl; lia] | reflexivity ..].
  - destruct (followed req (snd (serve e req))) eqn:Hf.
    + destruct (exchange_followed n req e Hf) as (next & _ & ->). cbn [fst snd].
      destruct (IH next (fst (serve e req))) as ((more & Hreqs & Hlen) & Hend & Hlast).
      split_and!.
      * exists (next :: more). rewrite Hreqs. split; [reflexivity | simpl; lia].
      * rewrite Hend. reflexivity.
      * rewrite Hlast, Hreqs.
        change (List.removelast (req :: next :: more))
          with (req :: List.removelast (next :: more)).
        change (List.last (req :: next :: more) req) with (List.last (next :: more) req).
        rewrite (last_default next more req next). reflexivity.
    + rewrite exchange_final by exact Hf. cbn [fst snd].
      split_and!; [exists []; split; [reflexivity | simpl; lia] | reflexivity ..].
Qed.

Lemma attempts_single (req : HTTPRequest) (w : World E) :
  attempts serve req w = [req] <-> followed req (first_answer serve req w) = false.
Proof.
  unfold attempts, first_answer, max_redirects. split.
  - intros Hone. destruct (followed req (snd (serve (engine w) req))) eqn:Hf; [| reflexivity].
    destruct (exchange_followed 4 req (engine w) Hf) as (next & _ & Heq).
    rewrite Heq in Hone. cbn [fst] in Hone.
    destruct (exchange_trace 4 next (fst (serve (engine w) req))) as ((more & Hreqs & _) & _).
    rewrite Hreqs in Hone. discriminate.
  - intros Hf. now rewrite exchange_final.
Qed.

Lemma answer_final (req : HTTPRequest) (w : World E) :
  followed req (first_answer serve req w) = false ->
  answer serve req w = first_answer serve req w.
Proof. unfold answer, first_answer. intros Hf. now rewrite exchange_final. Qed.

Lemma engine_final (req : HTTPRequest) (w : World E) :
  followed req (first_answer serve req w) = false ->
  engine (deliver serve req w) = fst (serve (engine w) req).
Proof. unfold deliver, first_answer. intros Hf. cbn [engine]. now rewrite exchange_final. Qed.

(** C7, as the code has it: [add_route] returns normally exactly when the
    exchange ends with an HTTP response of 2xx status.  A last response
    of any other status is raised as [HTTPError] with that status and
    the response itself, body included; an exchange that ends without a
    response raises its error; this holds for [delete_route] and
    [get_all_routes] alike, no operation catches anything.  The response
    to the [PUT] itself is the last one unless tornado follows it, which
    it does for 3xx answers only. *)
Theorem add_route_succeeds_iff_final_2xx (route target : string) (p : Proxy) (w : World E) :
  let put := route_request p w "PUT" ("/api/routes/" +:+ route)
               (Some (json_dumps (JDict [("target", JStr target)]))) in
  let del := route_request p w "DELETE" ("/api/routes/" +:+ route) None in
  let get := route_request p w "GET" "/api/routes/" None in
  (fst (fst (add_route serve route target p w)) = Ok tt <->
   error (answer serve put w) = None /\ is_2xx (code (answer serve put w)) = true) /\
  (error (answer serve put w) = None -> is_2xx (code (answer serve put w)) = false ->
   fst (fst (add_route serve route target p w)) =
   Raise (HTTPError (code (answer serve put w)) (answer serve put w))) /\
  (error (answer serve del w) = None -> is_2xx (code (answer serve del w)) = false ->
   fst (fst (delete_route serve route p w)) =
   Raise (HTTPError (code (answer serve del w)) (answer serve del w))) /\
  (error (answer serve get w) = None -> is_2xx (code (answer serve get w)) = false ->
   fst (fst (get_all_routes serve p w)) =
   Raise (HTTPError (code (answer serve get w)) (answer serve get w))) /\
  (forall description : string,
     (error (answer serve put w) = Some description ->
      fst (fst (add_route serve route target p w)) = Raise (ClientError description)) /\
     (error (answer serve del w) = Some description ->
      fst (fst (delete_route serve route p w)) = Raise (ClientError description)) /\
     (error (answer serve get w) = Some description ->
      fst (fst (get_all_routes serve p w)) = Raise (ClientError description))) /\
  (attempts serve put w = [put] <-> followed put (first_answer serve put w) = false) /\
  (followed put (first_answer serve put w) = false ->
   answer serve put w = first_answer serve put w) /\
  (code (first_answer serve put w) < 300 \/ 400 <= code (first_answer serve put w) ->
   followed put (first_answer serve put w) = false).
Proof.
  cbv zeta. rewrite add_route_eq, delete_route_eq, get_all_routes_eq. cbn [fst snd].
  split_and!.
  - apply outcome_ok_iff.
  - intros He Hc. now rewrite outcome_raise.
  - intros He Hc. now rewrite outcome_raise.
  - intros He Hc. now rewrite outcome_raise.
  - intros description. split_and!; intros He; now rewrite (outcome_error _ _ He).
  - apply attempts_single.
  - apply answer_final.
  - apply not_3xx_not_followed.
Qed.

(** C3, as the code has it: [delete_route] makes one call of [fetch],
    for the [DELETE], and returns normally exactly when the exchange
    ends with an HTTP response of 2xx status, whether or not the route
    was in the table.  It has no special case for 404: a 404 answer to
    the [DELETE] is never followed, so the exchange ends with it, and it
    is raised as [HTTPError] like any other failure. *)
Theorem delete_route_succeeds_iff_final_2xx (route : string) (p : Proxy) (w : World E) :
  let del := route_request p w "DELETE" ("/api/routes/" +:+ route) None in
  sent (snd (delete_route serve route p w)) = (sent w ++ [del])%list /\
  (fst (fst (delete_route serve route p w)) = Ok tt <->
   error (answer serve del w) = None /\ is_2xx (code (answer serve del w)) = true) /\
  (error (first_answer serve del w) = None -> code (first_answer serve del w) = 404 ->
   attempts serve del w = [del] /\
   fst (fst (delete_route serve route p w)) =
   Raise (HTTPError 404 (first_answer serve del w))) /\
  (error (answer serve del w) = None -> code (answer serve del w) = 404 ->
   fst (fst (delete_route serve route p w)) = Raise (HTTPError 404 (answer serve del w))).
Proof.
  cbv zeta. rewrite delete_route_eq. cbn [fst snd]. split_and!.
  - unfold deliver. cbn [sent]. now rewrite sent_after_token, sent_after_api.
  - apply outcome_ok_iff.
  - intros He Hc.
    assert (Hf : followed (route_request p w "DELETE" ("/api/routes/" +:+ route) None)
                   (first_answer serve
                      (route_request p w "DELETE" ("/api/routes/" +:+ route) None) w) = false)
      by (apply not_3xx_not_followed; lia).
    split; [now apply attempts_single |].
    rewrite (answer_final _ _ Hf), outcome_raise; rewrite ?Hc; [reflexivity | exact He | reflexivity].
  - intros He Hc. rewrite outcome_raise; rewrite ?Hc; [reflexivity | exact He | reflexivity].
Qed.

(** C8, as the code has it: [get_all_routes] makes one call of [fetch],
    for a [GET] of [<api_url>/api/routes/] without a body.  The exchange
    attempts that [GET] and up to five requests more, one for each
    redirect followed, which the engine serves in order; it is that one
    [GET] alone exactly when the engine's answer to it is not followed.
    The result is what [json.loads] makes of the body of the last
    response: when that is the table written as a JSON object, the
    result is the whole table, every key with its target. *)
Theorem get_all_routes_reads_last_response (p : Proxy) (w : World E) :
  let get := {| url := api_of p w +:+ "/api/routes/"; method := "GET";
                headers := [("Authorization", "token " +:+ token_of p w)];
                body := None |} in
  sent (snd (get_all_routes serve p w)) = (sent w ++ [get])%list /\
  (exists more : list HTTPRequest,
     attempts serve get w = get :: more /\ (length more <= 5)%nat) /\
  engine (snd (get_all_routes serve p w)) = served serve (attempts serve get w) (engine w) /\
  (attempts serve get w = [get] <-> followed get (first_answer serve get w) = false) /\
  (error (answer serve get w) = None -> is_2xx (code (answer serve get w)) = true ->
   fst (fst (get_all_routes serve p w)) = decoded (answer serve get w)) /\
  (forall table : list (string * string),
     NoDup (map fst table) ->
     error (answer serve get w) = None ->
     is_2xx (code (answer serve get w)) = true ->
     response_body (answer serve get w) = json_dumps (str_dict table) ->
     fst (fst (get_all_routes serve p w)) = Ok (str_dict table)).
Proof.
  intros get.
  assert (Hg : get = route_request p w "GET" "/api/routes/" None) by reflexivity.
  clearbody get. subst get. rewrite get_all_routes_eq. cbn [fst snd].
  set (req := route_request p w "GET" "/api/routes/" None).
  set (resp := answer serve req w).
  destruct (exchange_trace max_redirects req (engine w)) as (Hreqs & Hend & _).
  split_and!.
  - unfold deliver. cbn [sent]. now rewrite sent_after_token, sent_after_api.
  - exact Hreqs.
  - unfold deliver, attempts. cbn [engine].
    rewrite engine_after_token, engine_after_api. exact Hend.
  - apply attempts_single.
  - intros He Hc. now rewrite (outcome_ok _ He Hc).
  - intros table Hnd He Hc Hbody. rewrite (outcome_ok _ He Hc). unfold decoded. rewrite Hbody.
    rewrite decode_ascii by apply json_dumps_ascii.
    now rewrite json_loads_dumps.
Qed.

Lemma encode_length (s : string) :
  (String.length s <= String.length (Percent.encode s))%nat.
Proof.
  induction s as [| c s IH]; [reflexivity |].
  simpl. unfold Percent.encode_char. destruct (Percent.is_unreserved c); simpl; lia.
Qed.

Lemma encode_fixed_iff (s : string) :
  Percent.encode s = s <-> Text.all_chars Percent.is_unreserved s = true.
Proof.
  induction s as [| c s IH]; [simpl; tauto |].
  simpl. unfold Percent.encode_char.
  destruct (Percent.is_unreserved c) eqn:Hc; simpl.
  - rewrite <- IH. split; [now intros [= ->] | now intros ->].
  - split; [| discriminate]. intros [= _ Hs].
    pose proof (encode_length s) as Hl. rewrite <- Hs in Hl at 1. simpl in Hl. lia.
Qed.

(** C1, as the code has it: [add_route] and [delete_route] put the route
    into the URL as it is, [<api_url>/api/routes/<route>]; nothing is
    percent-encoded.  That URL is the percent-encoded one exactly when the
    route is made of unreserved characters only. *)
Theorem routes_are_sent_verbatim (route target : string) (p : Proxy) (w : World E) :
  (exists req,
     sent (snd (add_route serve route target p w)) = (sent w ++ [req])%list /\
     method req = "PUT" /\
     url req = api_of p w +:+ "/api/routes/" +:+ route) /\
  (exists req,
     sent (snd (delete_route serve route p w)) = (sent w ++ [req])%list /\
     method req = "DELETE" /\
     url req = api_of p w +:+ "/api/routes/" +:+ route) /\
  (api_of p w +:+ "/api/routes/" +:+ route =
   api_of p w +:+ "/api/routes/" +:+ Percent.encode route <->
   Text.all_chars Percent.is_unreserved route = true).
Proof.
  split_and!.
  - rewrite add_route_eq. eexists. simpl.
    rewrite sent_after_token, sent_after_api. split_and!; reflexivity.
  - rewrite delete_route_eq. eexists. simpl.
    rewrite sent_after_token, sent_after_api. split_and!; reflexivity.
  - rewrite <- encode_fixed_iff. split.
    + intros Heq. apply (inj (String.append _)) in Heq.
      apply (inj (String.append "/api/routes/")) in Heq. now symmetry.
    + now intros ->.
Qed.

End RouteClient.

(** ** The process supervisor *)

Section Supervisor.
Context {E : Type}.
Context `{Library}.

(** C4: when [urlparse] finds the two network locations and the engine
    can be executed, [start] spawns exactly one child, with the fixed flag
    set, the caller's environment plus [CONFIG_TLS_PROXY_TOKEN], a pipe
    on stdin, inherited stdout and stderr and a session of its own; it
    keeps the handle and returns without sending any request to the
    engine's API or otherwise consulting the engine. *)
Theorem start_launches_engine (p : Proxy) (w : World E) (a b : string) :
  urlparse_netloc (public_url p) = Some a ->
  urlparse_netloc (api_of p w) = Some b ->
  executable w (_PROXY_EXE w) = true ->
  let '(res, p', w') := start p w in
  exists proc,
    res = Ok tt /\
    proxy_process p' = Some proc /\
    children w' = (children w ++ [proc])%list /\
    sent w' = sent w /\
    engine w' = engine w /\
    args proc = [_PROXY_EXE w; "-address"; a; "-api-address"; b;
                 "-log-level"; level_name (log_level p); "-is-child-process"] /\
    env proc = <["CONFIG_TLS_PROXY_TOKEN" := token_of p w]> (environ w) /\
    stdin proc = PIPE /\ stdout proc = Inherited /\ stderr proc = Inherited /\
    start_new_session proc = true.
Proof.
  intros Ha Hb Hx. rewrite (start_eq p w a b Ha Hb), Hx.
  exists (launch p w a b). simpl.
  rewrite children_after_token, children_after_api, sent_after_token, sent_after_api,
    engine_after_token, engine_after_api.
  split_and!; reflexivity.
Qed.

End Supervisor.

(** ** The client against the specified engine *)

Section AgainstEngine.
Context `{Library}.

Lemma strip_prefix_app (pre s : string) : Text.strip_prefix pre (pre +:+ s) = Some s.
Proof.
  induction pre as [| c pre IH]; [reflexivity |].
  simpl. now rewrite Ascii.eqb_refl.
Qed.

Lemma span_all (f : ascii -> bool) (s : string) :
  Text.all_chars f s = true -> Reference.span f s = (s, EmptyString).
Proof.
  induction s as [| c s IH]; [reflexivity |].
  simpl. intros [Hc Hs]%andb_true_iff. now rewrite Hc, IH.
Qed.

Lemma all_chars_impl (f g : ascii -> bool) (s : string) :
  (forall c, f c = true -> g c = true) ->
  Text.all_chars f s = true -> Text.all_chars g s = true.
Proof.
  intros Hfg. induction s as [| c s IH]; [reflexivity |].
  simpl. intros [Hc Hs]%andb_true_iff. now rewrite (Hfg c Hc), IH.
Qed.

Lemma unreserved_in_path (c : ascii) :
  Percent.is_unreserved c = true ->
  negb ((Text.code c =? 63) || (Text.code c =? 35)) = true.
Proof. destruct c as [[] [] [] [] [] [] [] []]; vm_compute; congruence. Qed.

Lemma unreserved_not_percent (c : ascii) :
  Percent.is_unreserved c = true -> (Text.code c =? 37) = false.
Proof. destruct c as [[] [] [] [] [] [] [] []]; vm_compute; congruence. Qed.

Lemma path_of_unreserved (r : string) :
  Text.all_chars Percent.is_unreserved r = true -> Engine.path_of r = r.
Proof.
  intros Hr. unfold Engine.path_of. rewrite span_all; [reflexivity |].
  eapply all_chars_impl; [| exact Hr]. apply unreserved_in_path.
Qed.

Lemma decode_unreserved (r : string) :
  Text.all_chars Percent.is_unreserved r = true -> Percent.decode r = r.
Proof.
  induction r as [| c r IH]; [reflexivity |].
  simpl. intros [Hc Hr]%andb_true_iff.
  rewrite (unreserved_not_percent c Hc). now rewrite IH.
Qed.

Lemma target_of_dumps (t : string) :
  Engine.target_of (Some (json_dumps (JDict [("target", JStr t)]))) = Some t.
Proof.
  unfold Engine.target_of.
  change (JDict [("target", JStr t)]) with (str_dict [("target", t)]).
  rewrite json_loads_dumps; [reflexivity |].
  simpl. apply NoDup_singleton.
Qed.

(** The engine's answer to the [PUT] of [add_route]. *)
Lemma handle_put (st : Engine.State) (r t : string) :
  Text.all_chars Percent.is_unreserved r = true ->
  Engine.handle st
    {| url := Engine.base st +:+ "/api/routes/" +:+ r; method := "PUT";
       headers := [("Authorization", "token " +:+ Engine.token st)];
       body := Some (json_dumps (JDict [("target", JStr t)])) |} =
  (Engine.set_routes (<[r := t]> (Engine.routes st)) st, Engine.respond 201 "").
Proof.
  intros Hr. unfold Engine.handle. cbn [headers url method body].
  rewrite bool_decide_eq_true_2 by reflexivity. cbn [negb].
  rewrite <- append_assoc, strip_prefix_app, target_of_dumps.
  rewrite path_of_unreserved, decode_unreserved by exact Hr. reflexivity.
Qed.

(** The engine's answer to the [GET] of [get_all_routes]. *)
Lemma handle_get (st : Engine.State) :
  Engine.handle st
    {| url := Engine.base st +:+ "/api/routes/"; method := "GET";
       headers := [("Authorization", "token " +:+ Engine.token st)];
       body := None |} =
  (st, Engine.respond 200 (json_dumps (str_dict (map_to_list (Engine.routes st))))).
Proof.
  unfold Engine.handle. cbn [headers url method body].
  rewrite bool_decide_eq_true_2 by reflexivity. cbn [negb].
  replace (Engine.base st +:+ "/api/routes/")
    with ((Engine.base st +:+ "/api/routes/") +:+ "") at 2.
  - rewrite strip_prefix_app. reflexivity.
  - generalize (Engine.base st +:+ "/api/routes/"). intros s.
    induction s as [| c s IH]; simpl; congruence.
Qed.

Lemma decoded_table (table : gmap string string) :
  decoded (Engine.respond 200 (json_dumps (str_dict (map_to_list table)))) =
  Ok (str_dict (map_to_list table)).
Proof.
  unfold decoded. simpl.
  rewrite decode_ascii by apply json_dumps_ascii.
  rewrite json_loads_dumps; [reflexivity |].
  apply NoDup_fst_map_to_list.
Qed.

Lemma api_of_resolved (p : Proxy) (w w' : World Engine.State) :
  api_of (resolved p w) w' = api_of p w.
Proof. reflexivity. Qed.

(** An answer of the engine outside 3xx ends the exchange: the engine
    served the one request. *)
Lemma handled_once (req : HTTPRequest) (e st : Engine.State) (c : Z) (b : string) :
  Engine.handle e req = (st, Engine.respond c b) ->
  c < 300 \/ 400 <= c ->
  exchange Engine.handle max_redirects req e = ([req], st, Engine.respond c b).
Proof.
  intros Hh Hc.
  assert (Hf : followed req (snd (Engine.handle e req)) = false).
  { rewrite Hh. apply not_3xx_not_followed. exact Hc. }
  rewrite (exchange_final Engine.handle _ _ _ Hf), Hh. reflexivity.
Qed.

Lemma engine_after_request (req : HTTPRequest) (p q : Proxy) (w : World Engine.State)
      (m : LogMethod) (msg : string) (st : Engine.State) (c : Z) (b : string) :
  Engine.handle (engine w) req = (st, Engine.respond c b) ->
  c < 300 \/ 400 <= c ->
  engine (deliver Engine.handle req (after_token q (after_api p (log_record m msg w)))) = st.
Proof.
  intros Hh Hc. unfold deliver. cbn [engine]. rewrite engine_after_token, engine_after_api.
  change (engine (log_record m msg w)) with (engine w).
  now rewrite (handled_once _ _ _ _ _ Hh Hc).
Qed.

Lemma add_route_against_engine (r t : string) (p : Proxy) (w : World Engine.State) :
  Text.all_chars Percent.is_unreserved r = true ->
  in_sync p w ->
  exists w',
    add_route Engine.handle r t p w = (Ok tt, resolved p w, w') /\
    engine w' = Engine.set_routes (<[r := t]> (Engine.routes (engine w))) (engine w) /\
    in_sync (resolved p w) w'.
Proof.
  intros Hr [Htok Hbase].
  assert (Hans : Engine.handle (engine w)
            (route_request p w "PUT" ("/api/routes/" +:+ r)
               (Some (json_dumps (JDict [("target", JStr t)])))) =
          (Engine.set_routes (<[r := t]> (Engine.routes (engine w))) (engine w),
           Engine.respond 201 "")).
  { unfold route_request. rewrite <- Htok, <- Hbase. now apply handle_put. }
  assert (Hc : 201 < 300 \/ 400 <= 201) by lia.
  rewrite add_route_eq. eexists. split_and!.
  - unfold answer. rewrite (handled_once _ _ _ _ _ Hans Hc). reflexivity.
  - now rewrite (engine_after_request _ _ _ _ _ _ _ _ _ Hans Hc).
  - unfold in_sync.
    rewrite (engine_after_request _ _ _ _ _ _ _ _ _ Hans Hc), token_of_resolved, api_of_resolved.
    split; [exact Htok | exact Hbase].
Qed.

Lemma get_all_routes_against_engine (p : Proxy) (w : World Engine.State) :
  in_sync p w ->
  fst (fst (get_all_routes Engine.handle p w)) =
  Ok (str_dict (map_to_list (Engine.routes (engine w)))).
Proof.
  intros [Htok Hbase].
  assert (Hans : Engine.handle (engine w) (route_request p w "GET" "/api/routes/" None) =
          (engine w,
           Engine.respond 200 (json_dumps (str_dict (map_to_list (Engine.routes (engine w))))))).
  { unfold route_request. rewrite <- Htok, <- Hbase. apply handle_get. }
  assert (Hc : 200 < 300 \/ 400 <= 200) by lia.
  rewrite get_all_routes_eq. cbn [fst]. unfold answer.
  rewrite (handled_once _ _ _ _ _ Hans Hc). cbn [snd].
  apply decoded_table.
Qed.

(** The engine's answer to the [DELETE] of [delete_route], for any route. *)
Lemma handle_delete (st : Engine.State) (r : string) :
  Engine.handle st
    {| url := Engine.base st +:+ "/api/routes/" +:+ r; method := "DELETE";
       headers := [("Authorization", "token " +:+ Engine.token st)];
       body := None |} =
  (Engine.set_routes (delete (Percent.decode (Engine.path_of r)) (Engine.routes st)) st,
   Engine.respond 204 "").
Proof.
  unfold Engine.handle. cbn [headers url method body].
  rewrite bool_decide_eq_true_2 by reflexivity. cbn [negb].
  rewrite <- append_assoc, strip_prefix_app. reflexivity.
Qed.

(** Against the engine of the specification [delete_route] returns
    normally for every route, in the table or not. *)
Lemma delete_route_against_engine (r : string) (p : Proxy) (w : World Engine.State) :
  in_sync p w -> fst (fst (delete_route Engine.handle r p w)) = Ok tt.
Proof.
  intros [Htok Hbase].
  assert (Hans : Engine.handle (engine w)
            (route_request p w "DELETE" ("/api/routes/" +:+ r) None) =
          (Engine.set_routes
             (delete (Percent.decode (Engine.path_of r)) (Engine.routes (engine w))) (engine w),
           Engine.respond 204 "")).
  { unfold route_request. rewrite <- Htok, <- Hbase. apply handle_delete. }
  assert (Hc : 204 < 300 \/ 400 <= 204) by lia.
  rewrite delete_route_eq. cbn [fst]. unfold answer.
  rewrite (handled_once _ _ _ _ _ Hans Hc). reflexivity.
Qed.

(** Against the engine of the specification a route of unreserved
    characters is listed under its own name after [add_route]. *)
Lemma unreserved_route_round_trips (r t : string) (p : Proxy) (w : World Engine.State) :
  Text.all_chars Percent.is_unreserved r = true ->
  in_sync p w ->
  let '(_, p1, w1) := add_route Engine.handle r t p w in
  fst (fst (get_all_routes Engine.handle p1 w1)) =
  Ok (str_dict (map_to_list (<[r := t]> (Engine.routes (engine w))))).
Proof.
  intros Hr Hsync.
  destruct (add_route_against_engine r t p w Hr Hsync) as (w1 & -> & He1 & Hsync1).
  now rewrite (get_all_routes_against_engine _ w1 Hsync1), He1.
Qed.

(** C6, for routes of unreserved characters: against the engine of the
    specification, started with the object's token and API address, two
    [add_route] calls for the same route followed by [get_all_routes]
    return the table with the route mapped to the second target; on an
    engine without other routes that is [{r: t2}]. *)
Theorem upsert_last_write_wins (r t1 t2 : string) (p : Proxy) (w : World Engine.State) :
  Text.all_chars Percent.is_unreserved r = true ->
  in_sync p w ->
  let '(res1, p1, w1) := add_route Engine.handle r t1 p w in
  let '(res2, p2, w2) := add_route Engine.handle r t2 p1 w1 in
  res1 = Ok tt /\ res2 = Ok tt /\
  fst (fst (get_all_routes Engine.handle p2 w2)) =
  Ok (str_dict (map_to_list (<[r := t2]> (Engine.routes (engine w))))) /\
  (Engine.routes (engine w) = ∅ ->
   fst (fst (get_all_routes Engine.handle p2 w2)) = Ok (JDict [(r, JStr t2)])).
Proof.
  intros Hr Hsync.
  destruct (add_route_against_engine r t1 p w Hr Hsync) as (w1 & -> & He1 & Hsync1).
  destruct (add_route_against_engine r t2 _ w1 Hr Hsync1) as (w2 & -> & He2 & Hsync2).
  rewrite (get_all_routes_against_engine _ w2 Hsync2), He2, He1.
  cbn [Engine.set_routes Engine.routes]. rewrite insert_insert_eq.
  split_and!; [reflexivity | reflexivity | reflexivity |].
  intros ->. now rewrite insert_empty, map_to_list_singleton.
Qed.

End AgainstEngine.

(** ** The methods on sample hosts *)

Section Examples.
#[local] Existing Instance ReferenceLibrary.

(** A supplied token comes back unchanged. *)
Lemma token_resolution_witness :
  _auth_token_default (E := unit) new_proxy (world_with_token "s3cret" tt) =
  (Ok "s3cret", new_proxy, world_with_token "s3cret" tt).
Proof.
  apply (proj1 (token_resolution new_proxy (world_with_token "s3cret" tt))).
  vm_compute. discriminate.
Defined.

(** C2 fails as stated: two runs whose random bytes differ (in the version
    nibble) generate the same token, so the token does not carry all 128
    random bits and two runs need not produce different tokens. *)
Lemma generated_tokens_collide :
  (0 =? 2 ^ 76) = false /\
  fst (fst (_auth_token_default (E := unit) new_proxy (host ∅ (fun _ => 0) tt))) =
  Ok "00000000000040008000000000000000" /\
  fst (fst (_auth_token_default (E := unit) new_proxy (host ∅ (fun _ => 2 ^ 76) tt))) =
  Ok "00000000000040008000000000000000".
Proof. vm_compute. auto. Qed.

(** An exported but empty token is replaced by a generated one. *)
Lemma empty_token_regenerated_witness :
  fst (fst (_auth_token_default (E := unit) new_proxy (world_with_token "" tt))) =
  Ok (Uuid.uuid4_hex (next_draw (world_with_token (E := unit) "" tt))).
Proof.
  apply (proj1 (empty_token_regenerated new_proxy (world_with_token "" tt))).
  reflexivity.
Defined.

(** The scenario of the specification: a route is added, listed,
    deleted, and the table is empty again. *)
Example add_list_delete_list :
  (let '(r1, p1, w1) := add_route Engine.handle "scheduler-1" "10.1.2.3:8786"
                          new_proxy engine_world in
   let '(r2, p2, w2) := get_all_routes Engine.handle p1 w1 in
   let '(r3, p3, w3) := delete_route Engine.handle "scheduler-1" p2 w2 in
   let '(r4, p4, w4) := get_all_routes Engine.handle p3 w3 in
   (r1, r2, r3, r4)) =
  (Ok tt, Ok (JDict [("scheduler-1", JStr "10.1.2.3:8786")]), Ok tt, Ok (JDict [])).
Proof. vm_compute. reflexivity. Qed.

(** The child [start] spawns on a fresh host. *)
Example start_on_fresh_host :
  map args (children (snd (start (E := unit) new_proxy (fresh_world tt)))) =
  [["/srv/dask_gateway/proxy/configurable-tls-proxy"; "-address"; "0.0.0.0:8080";
    "-api-address"; "localhost:8000"; "-log-level"; "warn"; "-is-child-process"]] /\
  map (fun c => env c !! "CONFIG_TLS_PROXY_TOKEN")
      (children (snd (start (E := unit) new_proxy (fresh_world tt)))) =
  [Some "00000000000040008000000000000000"].
Proof. vm_compute. auto. Qed.

(** C1 fails as stated: the space of ["a b"] and the slash of ["a/b"]
    stand in the URL fetched as they are, where the percent-encoded
    segments are [a%20b] and [a%2Fb]. *)
Lemma route_is_not_percent_encoded :
  map url (sent (snd (add_route not_found_engine "a b" "10.0.0.1:9000"
                        new_proxy (fresh_world tt)))) =
  ["http://localhost:8000/api/routes/a b"] /\
  map url (sent (snd (delete_route not_found_engine "a/b" new_proxy (fresh_world tt)))) =
  ["http://localhost:8000/api/routes/a/b"] /\
  Percent.encode "a b" = "a%20b" /\
  Percent.encode "a/b" = "a%2Fb".
Proof. vm_compute. auto. Qed.

(** C3 fails as stated: when the engine answers the [DELETE] of an absent
    route with 404, [delete_route] raises. *)
Lemma delete_route_does_not_absorb_404 :
  fst (fst (delete_route not_found_engine "ghost" new_proxy (fresh_world tt))) =
  Raise (HTTPError 404 {| code := 404; response_headers := [];
                          response_body := "Not Found"; error := None |}).
Proof. vm_compute. reflexivity. Qed.

(** A 404 answer to the [DELETE] ends the exchange and is raised. *)
Lemma delete_route_succeeds_iff_final_2xx_witness :
  attempts not_found_engine
    (route_request new_proxy (fresh_world tt) "DELETE" "/api/routes/ghost" None)
    (fresh_world tt) =
  [route_request new_proxy (fresh_world tt) "DELETE" "/api/routes/ghost" None] /\
  fst (fst (delete_route not_found_engine "ghost" new_proxy (fresh_world tt))) =
  Raise (HTTPError 404
           (first_answer not_found_engine
              (route_request new_proxy (fresh_world tt) "DELETE" "/api/routes/ghost" None)
              (fresh_world tt))).
Proof.
  apply (proj1 (proj2 (proj2
           (delete_route_succeeds_iff_final_2xx not_found_engine "ghost" new_proxy
              (fresh_world tt))))).
  - vm_compute. reflexivity.
  - vm_compute. reflexivity.
Defined.

(** Against the engine of the specification the deletion of an absent
    route returns normally. *)
Example delete_absent_route_against_engine :
  fst (fst (delete_route Engine.handle "ghost" new_proxy engine_world)) = Ok tt.
Proof. vm_compute. reflexivity. Qed.

(** C7 fails as stated: the engine answers the [PUT] with 303, which is
    no success, and [add_route] returns normally all the same.  Nothing
    acknowledged the write: the 200 that ends the exchange answers the
    [GET] tornado made of the redirect. *)
Lemma redirected_add_route_returns_normally :
  code (first_answer (moved_engine 303)
          (route_request new_proxy moved_world "PUT" "/api/routes/scheduler-1"
             (Some (json_dumps (JDict [("target", JStr "10.1.2.3:8786")]))))
          moved_world) = 303 /\
  is_2xx 303 = false /\
  fst (fst (add_route (moved_engine 303) "scheduler-1" "10.1.2.3:8786"
              new_proxy moved_world)) = Ok tt /\
  map (fun req => (method req, url req, has_body req))
      (engine (snd (add_route (moved_engine 303) "scheduler-1" "10.1.2.3:8786"
                      new_proxy moved_world))) =
  [("PUT", "http://localhost:8000/api/routes/scheduler-1", true);
   ("GET", "http://localhost:9000/api/routes/scheduler-1", false)].
Proof. vm_compute. auto. Qed.

(** A 404 answer to [add_route] reaches the caller with status and body. *)
Lemma add_route_succeeds_iff_final_2xx_witness :
  fst (fst (add_route not_found_engine "scheduler-1" "10.1.2.3:8786"
              new_proxy (fresh_world tt))) =
  Raise (HTTPError 404 {| code := 404; response_headers := [];
                          response_body := "Not Found"; error := None |}).
Proof.
  pose proof (proj1 (proj2
           (add_route_succeeds_iff_final_2xx not_found_engine "scheduler-1" "10.1.2.3:8786"
              new_proxy (fresh_world tt)))) as Hraised.
  vm_compute in Hraised. vm_compute. apply Hraised; reflexivity.
Defined.

(** With no engine listening every route operation raises the error of
    the connection, and a 307 answer is followed with method and body
    kept. *)
Example connection_errors_and_redirects :
  fst (fst (add_route no_engine "scheduler-1" "10.1.2.3:8786" new_proxy (fresh_world tt))) =
  Raise (ClientError "Connection refused") /\
  fst (fst (delete_route no_engine "scheduler-1" new_proxy (fresh_world tt))) =
  Raise (ClientError "Connection refused") /\
  fst (fst (get_all_routes no_engine new_proxy (fresh_world tt))) =
  Raise (ClientError "Connection refused") /\
  fst (fst (add_route (moved_engine 307) "scheduler-1" "10.1.2.3:8786"
              new_proxy moved_world)) = Ok tt /\
  map (fun req => (method req, url req, has_body req))
      (engine (snd (add_route (moved_engine 307) "scheduler-1" "10.1.2.3:8786"
                      new_proxy moved_world))) =
  [("PUT", "http://localhost:8000/api/routes/scheduler-1", true);
   ("PUT", "http://localhost:9000/api/routes/scheduler-1", true)].
Proof. vm_compute. auto 10. Qed.

(** A 302 answer to the [DELETE] is followed with the method kept: the
    engine serves two [DELETE]s and [delete_route] returns normally. *)
Example redirected_delete_route :
  fst (fst (delete_route (moved_engine 302) "scheduler-1" new_proxy moved_world)) = Ok tt /\
  map (fun req => (method req, url req))
      (engine (snd (delete_route (moved_engine 302) "scheduler-1" new_proxy moved_world))) =
  [("DELETE", "http://localhost:8000/api/routes/scheduler-1");
   ("DELETE", "http://localhost:9000/api/routes/scheduler-1")].
Proof. vm_compute. auto. Qed.

(** Five redirects are followed and no more: the sixth 302 is raised. *)
Example redirects_are_followed_five_times :
  engine (snd (get_all_routes looping_engine new_proxy (fresh_world 0%nat))) = 6%nat /\
  fst (fst (get_all_routes looping_engine new_proxy (fresh_world 0%nat))) =
  Raise (HTTPError 302
           {| code := 302;
              response_headers := [("Location", "http://localhost:8000/api/routes/")];
              response_body := EmptyString; error := None |}).
Proof. vm_compute. auto. Qed.

(** C8 fails as stated: when the engine answers the [GET] with a
    redirect, the one [get_all_routes] makes it serve two [GET]s, and the
    result is read from the answer to the second. *)
Lemma redirected_get_all_routes_sends_two_requests :
  map (fun req => (method req, url req))
      (engine (snd (get_all_routes (moved_engine 302) new_proxy moved_world))) =
  [("GET", "http://localhost:8000/api/routes/");
   ("GET", "http://localhost:9000/api/routes/")] /\
  length (sent (snd (get_all_routes (moved_engine 302) new_proxy moved_world))) = 1%nat /\
  fst (fst (get_all_routes (moved_engine 302) new_proxy moved_world)) = Ok (JDict []).
Proof. vm_compute. auto. Qed.

(** The one route an engine holds comes back as the whole table. *)
Lemma get_all_routes_reads_last_response_witness :
  fst (fst (get_all_routes Engine.handle new_proxy
              (world_with_token "s3cret"
                 (engine_on_host "s3cret" {["scheduler-1" := "10.1.2.3:8786"]})))) =
  Ok (str_dict [("scheduler-1", "10.1.2.3:8786")]).
Proof.
  apply (proj2 (proj2 (proj2 (proj2 (proj2
           (get_all_routes_reads_last_response Engine.handle new_proxy
              (world_with_token "s3cret"
                 (engine_on_host "s3cret" {["scheduler-1" := "10.1.2.3:8786"]})))))))).
  - simpl. apply NoDup_singleton.
  - vm_compute. reflexivity.
  - vm_compute. reflexivity.
  - vm_compute. reflexivity.
Defined.

(** [start] on a fresh host with the default configuration. *)
Lemma start_launches_engine_witness :
  let '(res, p', w') := start (E := unit) new_proxy (fresh_world tt) in
  exists proc,
    res = Ok tt /\
    proxy_process p' = Some proc /\
    children w' = (children (fresh_world tt) ++ [proc])%list /\
    sent w' = sent (fresh_world tt) /\
    engine w' = engine (fresh_world tt) /\
    args proc = [_PROXY_EXE (fresh_world tt); "-address"; "0.0.0.0:8080";
                 "-api-address"; "localhost:8000";
                 "-log-level"; level_name (log_level new_proxy); "-is-child-process"] /\
    env proc = <["CONFIG_TLS_PROXY_TOKEN" := token_of new_proxy (fresh_world tt)]>
                 (environ (fresh_world tt)) /\
    stdin proc = PIPE /\ stdout proc = Inherited /\ stderr proc = Inherited /\
    start_new_session proc = true.
Proof.
  apply (start_launches_engine new_proxy (fresh_world tt) "0.0.0.0:8080" "localhost:8000");
    vm_compute; reflexivity.
Defined.

(** C6 fails as stated for a route with a reserved character: everything
    after the [?] of ["a?b"] is the query of the URL, so both writes go to
    the key ["a"] and the table returned does not have the key ["a?b"]. *)
Lemma reserved_route_is_not_upserted :
  in_sync new_proxy engine_world /\
  Engine.routes (engine engine_world) = ∅ /\
  (let '(_, p1, w1) := add_route Engine.handle "a?b" "10.0.0.1:9000" new_proxy engine_world in
   let '(_, p2, w2) := add_route Engine.handle "a?b" "10.0.0.2:9000" p1 w1 in
   fst (fst (get_all_routes Engine.handle p2 w2))) =
  Ok (JDict [("a", JStr "10.0.0.2:9000")]).
Proof. unfold in_sync. split_and!; vm_compute; reflexivity. Qed.

(** Two writes of a host name: the second target is the one listed. *)
Lemma upsert_last_write_wins_witness :
  let '(res1, p1, w1) := add_route Engine.handle "scheduler-1" "10.1.2.3:8786"
                           new_proxy engine_world in
  let '(res2, p2, w2) := add_route Engine.handle "scheduler-1" "10.1.2.4:8786" p1 w1 in
  res1 = Ok tt /\ res2 = Ok tt /\
  fst (fst (get_all_routes Engine.handle p2 w2)) =
  Ok (str_dict (map_to_list (<["scheduler-1" := "10.1.2.4:8786"]>
                               (Engine.routes (engine engine_world))))) /\
  (Engine.routes (engine engine_world) = ∅ ->
   fst (fst (get_all_routes Engine.handle p2 w2)) =
   Ok (JDict [("scheduler-1", JStr "10.1.2.4:8786")])).
Proof.
  apply (upsert_last_write_wins "scheduler-1" "10.1.2.3:8786" "10.1.2.4:8786"
           new_proxy engine_world).
  - vm_compute. reflexivity.
  - split; vm_compute; reflexivity.
Defined.

(** After a [start] that failed because the engine program is missing,
    and a route operation, [stop] still finds no [proxy_process]. *)
Lemma stop_before_start_raises_witness :
  let '(p', w') := run_calls not_found_engine [CallStart; CallDeleteRoute "ghost"]
                     new_proxy (bare_host tt) in
  stop p' w' = (Raise (AttributeError "Proxy" "proxy_process"), p', w').
Proof.
  apply (stop_before_start_raises not_found_engine [CallStart; CallDeleteRoute "ghost"]
           new_proxy (bare_host tt)).
  - reflexivity.
  - vm_compute. reflexivity.
Defined.

End Examples.

(** * Further properties of the class

    The rest of this file looks at what the methods do beyond their main
    results: what a failed call leaves behind, what the lazily computed
    attributes consume, what reaches the log, the child's environment and
    the requests fetched, and how calls compose. *)

(** ** Definitions *)

Section Views.
Context {E : Type}.

(** Whether reading [self.auth_token] now would generate a token. *)
Definition generates (p : Proxy) (w : World E) : bool :=
  match auth_token p with
  | Assigned _ => false
  | Unset => Text.is_empty (default "" (environ w !! "CONFIG_TLS_PROXY_TOKEN"))
  end.

(** Ports that reading [self.api_url] would still take. *)
Definition ports_due (p : Proxy) : nat :=
  match api_url p with
  | Assigned _ => 0
  | Unset => 1
  end.

(** Reads of [os.urandom] that reading [self.auth_token] would still make. *)
Definition draws_due (p : Proxy) (w : World E) : nat :=
  if generates p w then 1 else 0.

Definition is_assigned {A} (t : trait A) : bool :=
  match t with
  | Assigned _ => true
  | Unset => false
  end.

(** What the log can depend on: the two URLs, whether a token has been
    assigned or supplied (not which), the ports the OS hands out, and the
    log so far. *)
Record LogView : Type := mkLogView {
  view_public_url : string;
  view_api_url : trait string;
  view_token_assigned : bool;
  view_token_supplied : bool;
  view_free_port : nat -> Z;
  view_ports_taken : nat;
  view_log : list (LogMethod * string)
}.

Definition log_view (p : Proxy) (w : World E) : LogView :=
  {| view_public_url := public_url p;
     view_api_url := api_url p;
     view_token_assigned := is_assigned (auth_token p);
     view_token_supplied :=
       negb (Text.is_empty (default "" (environ w !! "CONFIG_TLS_PROXY_TOKEN")));
     view_free_port := free_port w;
     view_ports_taken := ports_taken w;
     view_log := log w |}.

Definition is_route_operation (c : Call) : bool :=
  match c with
  | CallAddRoute _ _ | CallDeleteRoute _ | CallGetAllRoutes => true
  | CallStart | CallStop => false
  end.

End Views.

Section ViewSteps.
Context `{Library}.

(** The address [self.api_url] evaluates to, read off a view. *)
Definition view_api (v : LogView) : string :=
  match view_api_url v with
  | Assigned u => u
  | Unset => "http://localhost:" +:+ pretty (view_free_port v (view_ports_taken v))
  end.

(** The view once [self.api_url] has been read. *)
Definition view_read_api (v : LogView) : LogView :=
  {| view_public_url := view_public_url v;
     view_api_url := Assigned (view_api v);
     view_token_assigned := view_token_assigned v;
     view_token_supplied := view_token_supplied v;
     view_free_port := view_free_port v;
     view_ports_taken :=
       match view_api_url v with
       | Assigned _ => view_ports_taken v
       | Unset => S (view_ports_taken v)
       end;
     view_log := view_log v |}.

(** The view once [self.auth_token] has been read. *)
Definition view_read_token (v : LogView) : LogView :=
  {| view_public_url := view_public_url v;
     view_api_url := view_api_url v;
     view_token_assigned := true;
     view_token_supplied := view_token_supplied v;
     view_free_port := view_free_port v;
     view_ports_taken := view_ports_taken v;
     view_log :=
       if view_token_assigned v || view_token_supplied v then view_log v
       else view_log v ++ [(LogInfo, "Generating new CONFIG_TLS_PROXY_TOKEN")] |}.

Definition view_write (m : LogMethod) (msg : string) (v : LogView) : LogView :=
  {| view_public_url := view_public_url v;
     view_api_url := view_api_url v;
     view_token_assigned := view_token_assigned v;
     view_token_supplied := view_token_supplied v;
     view_free_port := view_free_port v;
     view_ports_taken := view_ports_taken v;
     view_log := view_log v ++ [(m, msg)] |}.

(** How one call changes the view. *)
Definition view_step (c : Call) (v : LogView) : LogView :=
  match c with
  | CallStart =>
      match urlparse_netloc (view_public_url v) with
      | None => v
      | Some _ =>
          match urlparse_netloc (view_api v) with
          | None => view_read_api v
          | Some _ =>
              view_write LogInfo "Starting the Dask Gateway Proxy..."
                (view_read_token (view_read_api v))
          end
      end
  | CallStop => v
  | CallAddRoute route target =>
      view_read_token
        (view_read_api
           (view_write LogDebug ("Adding route " +:+ route +:+ " -> " +:+ target) v))
  | CallDeleteRoute route =>
      view_read_token (view_read_api (view_write LogDebug ("Removing route " +:+ route) v))
  | CallGetAllRoutes => view_read_token (view_read_api v)
  end.

(** The request is for a path under the address [base]. *)
Definition goes_to (base : string) (req : HTTPRequest) : Prop :=
  exists path, url req = base +:+ path.

(** The child was told to serve its API on the network location of
    [base]. *)
Definition told_to_bind (base : string) (proc : Popen) : Prop :=
  args proc !! 3%nat = Some "-api-address" /\
  args proc !! 4%nat = urlparse_netloc base.

(** The child's environment is [os.environ] with one variable set. *)
Definition inherits (environment : gmap string string) (proc : Popen) : Prop :=
  forall name, name <> "CONFIG_TLS_PROXY_TOKEN" -> env proc !! name = environment !! name.

(** What tornado's check of method and body accepts: a body with [PUT],
    none with [GET] or [DELETE]. *)
Definition well_formed (req : HTTPRequest) : Prop :=
  (method req = "PUT" /\ body req <> None) \/
  ((method req = "GET" \/ method req = "DELETE") /\ body req = None).

(** An object whose address and token were assigned by configuration. *)
Definition configured_proxy : Proxy :=
  {| log_level := Info; public_url := "tls://0.0.0.0:8786";
     api_url := Assigned "http://127.0.0.1:9999"; auth_token := Assigned "s3cret";
     proxy_process := None |}.

End ViewSteps.

(** ** What reading an attribute changes *)

Section MoreFrames.
Context {E : Type}.

Lemma environ_after_token (p : Proxy) (w : World E) : environ (after_token p w) = environ w.
Proof. apply after_token_frame. Qed.

Lemma package_dir_after_token (p : Proxy) (w : World E) :
  package_dir (after_token p w) = package_dir w.
Proof. apply after_token_frame. Qed.

Lemma executable_after_token (p : Proxy) (w : World E) :
  executable (after_token p w) = executable w.
Proof. apply after_token_frame. Qed.

Lemma free_port_after_token (p : Proxy) (w : World E) :
  free_port (after_token p w) = free_port w.
Proof. apply after_token_frame. Qed.

Lemma ports_taken_after_token (p : Proxy) (w : World E) :
  ports_taken (after_token p w) = ports_taken w.
Proof. apply after_token_frame. Qed.

Lemma signals_after_token (p : Proxy) (w : World E) : signals (after_token p w) = signals w.
Proof. apply after_token_frame. Qed.

Lemma urandom_after_token (p : Proxy) (w : World E) : urandom (after_token p w) = urandom w.
Proof. unfold after_token. destruct (auth_token p); [| reflexivity]. now destruct (Text.is_empty _). Qed.

Lemma urandom_reads_after_token (p : Proxy) (w : World E) :
  urandom_reads (after_token p w) = (urandom_reads w + draws_due p w)%nat.
Proof.
  unfold after_token, draws_due, generates.
  destruct (auth_token p); [| simpl; lia]. destruct (Text.is_empty _); simpl; lia.
Qed.

Lemma log_after_token (p : Proxy) (w : World E) :
  log (after_token p w) =
  if generates p w
  then (log w ++ [(LogInfo, "Generating new CONFIG_TLS_PROXY_TOKEN")])%list
  else log w.
Proof.
  unfold after_token, generates.
  destruct (auth_token p); [| reflexivity]. now destruct (Text.is_empty _).
Qed.

Lemma environ_after_api (p : Proxy) (w : World E) : environ (after_api p w) = environ w.
Proof. apply after_api_frame. Qed.

Lemma package_dir_after_api (p : Proxy) (w : World E) :
  package_dir (after_api p w) = package_dir w.
Proof. apply after_api_frame. Qed.

Lemma executable_after_api (p : Proxy) (w : World E) :
  executable (after_api p w) = executable w.
Proof. apply after_api_frame. Qed.

Lemma signals_after_api (p : Proxy) (w : World E) : signals (after_api p w) = signals w.
Proof. apply after_api_frame. Qed.

Lemma urandom_after_api (p : Proxy) (w : World E) : urandom (after_api p w) = urandom w.
Proof. apply after_api_frame. Qed.

Lemma urandom_reads_after_api (p : Proxy) (w : World E) :
  urandom_reads (after_api p w) = urandom_reads w.
Proof. apply after_api_frame. Qed.

Lemma free_port_after_api (p : Proxy) (w : World E) : free_port (after_api p w) = free_port w.
Proof. unfold after_api. now destruct (api_url p). Qed.

Lemma log_after_api (p : Proxy) (w : World E) : log (after_api p w) = log w.
Proof. unfold after_api. now destruct (api_url p). Qed.

Lemma ports_taken_after_api (p : Proxy) (w : World E) :
  ports_taken (after_api p w) = (ports_taken w + ports_due p)%nat.
Proof. unfold after_api, ports_due. destruct (api_url p); simpl; lia. Qed.

End MoreFrames.

Create Rewrite HintDb frames.
#[local] Hint Rewrite
  @sent_after_token @children_after_token @engine_after_token
  @sent_after_api @children_after_api @engine_after_api
  @environ_after_token @package_dir_after_token @executable_after_token
  @free_port_after_token @ports_taken_after_token @signals_after_token
  @urandom_after_token @environ_after_api @package_dir_after_api
  @executable_after_api @signals_after_api @urandom_after_api
  @urandom_reads_after_api @free_port_after_api @log_after_api : frames.

(** The cases of one call: the paths through [start] and [stop], and the
    three route operations in closed form. *)
Ltac call_cases c p w :=
  let a := fresh "a" in
  let b := fresh "b" in
  let Ha := fresh "Ha" in
  let Hb := fresh "Hb" in
  let Hx := fresh "Hx" in
  let Hp := fresh "Hp" in
  let proc := fresh "proc" in
  destruct c as [| | ?route ?target | ?route |]; cbn [run_call];
  [ destruct (urlparse_netloc (public_url p)) as [a |] eqn:Ha;
    [ destruct (urlparse_netloc (api_of p w)) as [b |] eqn:Hb;
      [ rewrite (start_eq p w a b Ha Hb);
        destruct (executable w (_PROXY_EXE w)) eqn:Hx
      | rewrite (start_bad_api_url p w a Ha Hb) ]
    | rewrite (start_bad_public_url p w Ha) ]
  | rewrite stop_eq; destruct (proxy_process p) as [proc |] eqn:Hp
  | rewrite add_route_eq
  | rewrite delete_route_eq
  | rewrite get_all_routes_eq ].

(** ** The life of the child process *)

Section Lifecycle.
Context {E : Type}.
Context `{Library}.


(** After a [start] that returned normally, [stop] returns normally and
    sends [SIGTERM] to the child that [start] spawned, and to no other
    process; it sends no request, writes no log record and keeps the
    handle. *)
Theorem stop_terminates_started_child (p : Proxy) (w : World E) (a b : string) :
  urlparse_netloc (public_url p) = Some a ->
  urlparse_netloc (api_of p w) = Some b ->
  executable w (_PROXY_EXE w) = true ->
  let '(_, p1, w1) := start p w in
  let '(res, p2, w2) := stop p1 w1 in
  exists proc,
    children w1 = (children w ++ [proc])%list /\
    res = Ok tt /\
    signals w2 = (signals w ++ [(pid proc, SIGTERM)])%list /\
    p2 = p1 /\
    proxy_process p2 = Some proc /\
    children w2 = children w1 /\
    sent w2 = sent w /\
    log w2 = log w1.
Proof.
  intros Ha Hb Hx. rewrite (start_eq p w a b Ha Hb), Hx, stop_eq.
  cbn [set_proxy_process proxy_process terminate update_world].
  exists (launch p w a b). cbn [spawn log_record children signals sent log].
  autorewrite with frames. split_and!; reflexivity.
Qed.

(** A second [start] spawns a second child with the same arguments and
    the same token and replaces the handle: a later [stop] signals the
    second child only, and the first is left running. *)
Theorem second_start_orphans_first_child (p : Proxy) (w : World E) (a b : string) :
  urlparse_netloc (public_url p) = Some a ->
  urlparse_netloc (api_of p w) = Some b ->
  executable w (_PROXY_EXE w) = true ->
  let '(_, p1, w1) := start p w in
  let '(res2, p2, w2) := start p1 w1 in
  let '(res3, p3, w3) := stop p2 w2 in
  exists first second,
    res2 = Ok tt /\ res3 = Ok tt /\
    children w3 = (children w ++ [first; second])%list /\
    pid first <> pid second /\
    args first = args second /\
    env first = env second /\
    proxy_process p3 = Some second /\
    signals w3 = (signals w ++ [(pid second, SIGTERM)])%list.
Proof.
  intros Ha Hb Hx. rewrite (start_eq p w a b Ha Hb), Hx.
  set (p1 := set_proxy_process (launch p w a b) (resolved p w)).
  set (w1 := spawn (launch p w a b)
               (log_record LogInfo "Starting the Dask Gateway Proxy..."
                  (after_token (set_api_url (api_of p w) p) (after_api p w)))).
  assert (Hx1 : executable w1 (_PROXY_EXE w1) = true).
  { unfold w1, _PROXY_EXE. cbn [spawn log_record executable package_dir].
    autorewrite with frames. exact Hx. }
  assert (Hch1 : children w1 = (children w ++ [launch p w a b])%list).
  { unfold w1. cbn [spawn log_record children]. now autorewrite with frames. }
  assert (Hen1 : environ w1 = environ w).
  { unfold w1. cbn [spawn log_record environ]. now autorewrite with frames. }
  assert (Hpk1 : _PROXY_EXE w1 = _PROXY_EXE w).
  { unfold w1, _PROXY_EXE. cbn [spawn log_record package_dir]. now autorewrite with frames. }
  assert (Hsg1 : signals w1 = signals w).
  { unfold w1. cbn [spawn log_record signals]. now autorewrite with frames. }
  rewrite (start_eq p1 w1 a b Ha Hb), Hx1, stop_eq.
  cbn [set_proxy_process proxy_process terminate update_world].
  exists (launch p w a b), (launch p1 w1 a b).
  cbn [spawn log_record children signals].
  autorewrite with frames. rewrite Hch1, Hsg1.
  split_and!; try reflexivity.
  - now rewrite <- app_assoc.
  - unfold launch. cbn [pid]. rewrite Hch1, length_app. simpl. lia.
  - unfold launch. cbn [args]. now rewrite Hpk1.
  - unfold launch. cbn [env]. now rewrite Hen1.
Qed.

End Lifecycle.

(** ** What a sequence of calls keeps *)

Section Sequences.
Context {E : Type}.
Variable serve : E -> HTTPRequest -> E * HTTPResponse.
Context `{Library}.

Lemma draws_due_after_api (p : Proxy) (w : World E) (u : string) :
  draws_due (set_api_url u p) (after_api p w) = draws_due p w.
Proof. unfold draws_due, generates. cbn [set_api_url auth_token]. now autorewrite with frames. Qed.

Lemma api_of_log_record (p : Proxy) (w : World E) (m : LogMethod) (msg : string) :
  api_of p (log_record m msg w) = api_of p w.
Proof. reflexivity. Qed.

Lemma run_call_address (c : Call) (p : Proxy) (w : World E) :
  let '(_, p', w') := run_call serve c p w in
  api_of p' w' = api_of p w /\
  exists reqs procs,
    sent w' = (sent w ++ reqs)%list /\
    children w' = (children w ++ procs)%list /\
    Forall (goes_to (api_of p w)) reqs /\
    Forall (told_to_bind (api_of p w)) procs.
Proof.
  call_cases c p w; cbn [fst snd is_ok].
  - split; [reflexivity |]. exists [], [launch p w a b].
    cbn [spawn log_record sent children]. autorewrite with frames.
    rewrite app_nil_r. split_and!; [reflexivity | reflexivity | constructor |].
    constructor; [| constructor]. split; [reflexivity |]. now rewrite Hb.
  - split; [reflexivity |]. exists [], [].
    cbn [log_record sent children]. autorewrite with frames.
    rewrite !app_nil_r. split_and!; [reflexivity | reflexivity | constructor | constructor].
  - split; [reflexivity |]. exists [], []. autorewrite with frames.
    rewrite !app_nil_r. split_and!; [reflexivity | reflexivity | constructor | constructor].
  - split; [reflexivity |]. exists [], [].
    rewrite !app_nil_r. split_and!; [reflexivity | reflexivity | constructor | constructor].
  - split; [reflexivity |]. exists [], []. cbn [terminate update_world fst snd sent children].
    rewrite !app_nil_r. split_and!; [reflexivity | reflexivity | constructor | constructor].
  - split; [reflexivity |]. exists [], [].
    rewrite !app_nil_r. split_and!; [reflexivity | reflexivity | constructor | constructor].
  - split; [reflexivity |]. eexists [_], [].
    cbn [deliver log_record sent children]. autorewrite with frames.
    cbn [log_record sent children]. rewrite app_nil_r.
    split_and!; [reflexivity | reflexivity | | constructor].
    constructor; [| constructor]. eexists. reflexivity.
  - split; [reflexivity |]. eexists [_], [].
    cbn [deliver log_record sent children]. autorewrite with frames.
    cbn [log_record sent children]. rewrite app_nil_r.
    split_and!; [reflexivity | reflexivity | | constructor].
    constructor; [| constructor]. eexists. reflexivity.
  - split; [reflexivity |]. eexists [_], [].
    cbn [deliver sent children]. autorewrite with frames. rewrite app_nil_r.
    split_and!; [reflexivity | reflexivity | | constructor].
    constructor; [| constructor]. eexists. reflexivity.
Qed.

(** Whatever is called, in whatever order, every request the methods
    give to [fetch] is for a path under the one address [self.api_url]
    evaluated to at the beginning,
    and every engine [start] launches is told to serve its API on the
    network location of that same address: the lazily computed default
    is computed once and never changes afterwards. *)
Theorem one_address_for_engine_and_requests (cs : list Call) (p : Proxy) (w : World E) :
  let '(p', w') := run_calls serve cs p w in
  api_of p' w' = api_of p w /\
  exists reqs procs,
    sent w' = (sent w ++ reqs)%list /\
    children w' = (children w ++ procs)%list /\
    Forall (goes_to (api_of p w)) reqs /\
    Forall (told_to_bind (api_of p w)) procs.
Proof.
  revert p w. induction cs as [| c cs IH]; intros p w; simpl.
  - split; [reflexivity |]. exists [], []. rewrite !app_nil_r.
    split_and!; [reflexivity | reflexivity | constructor | constructor].
  - pose proof (run_call_address c p w) as Hc.
    destruct (run_call serve c p w) as [[ok p1] w1].
    destruct Hc as (Hapi & reqs & procs & Hs & Hc & Hr & Hp).
    specialize (IH p1 w1). destruct (run_calls serve cs p1 w1) as [p' w'].
    destruct IH as (Hapi' & reqs' & procs' & Hs' & Hc' & Hr' & Hp').
    rewrite Hapi in *. split; [exact Hapi' |].
    exists (reqs ++ reqs')%list, (procs ++ procs')%list.
    rewrite Hs', Hc', Hs, Hc, <- !app_assoc.
    split_and!; [reflexivity | reflexivity | |]; now apply Forall_app.
Qed.

Lemma run_call_defaults (c : Call) (p : Proxy) (w : World E) :
  let '(_, p', w') := run_call serve c p w in
  (ports_taken w' + ports_due p' = ports_taken w + ports_due p)%nat /\
  (urandom_reads w' + draws_due p' w' = urandom_reads w + draws_due p w)%nat /\
  (ports_taken w <= ports_taken w')%nat /\
  (urandom_reads w <= urandom_reads w')%nat.
Proof.
  call_cases c p w; cbn [fst snd is_ok];
    cbn [spawn deliver log_record terminate update_world fst snd ports_taken urandom_reads];
    rewrite ?ports_taken_after_token, ?ports_taken_after_api, ?urandom_reads_after_token,
      ?urandom_reads_after_api, ?draws_due_after_api;
    cbn [log_record ports_taken urandom_reads];
    repeat match goal with
           | |- context [draws_due p ?w1] =>
               lazymatch w1 with
               | w => fail
               | _ => change (draws_due p w1) with (draws_due p w)
               end
           end;
    cbn [ports_due draws_due generates resolved set_proxy_process set_auth_token
         set_api_url api_url auth_token];
    split_and!; lia.
Qed.

(** The dynamic defaults are computed at most once: over any sequence of
    calls at most one port is taken from the OS and at most one read of
    [os.urandom] is made, and none at all once the attribute is assigned
    (or, for the token, supplied by the environment). *)
Theorem defaults_are_computed_once (cs : list Call) (p : Proxy) (w : World E) :
  let '(p', w') := run_calls serve cs p w in
  (ports_taken w <= ports_taken w' <= ports_taken w + ports_due p)%nat /\
  (urandom_reads w <= urandom_reads w' <= urandom_reads w + draws_due p w)%nat /\
  (ports_due p <= 1)%nat /\ (draws_due p w <= 1)%nat /\
  (is_assigned (api_url p) = true -> ports_taken w' = ports_taken w) /\
  (generates p w = false -> urandom_reads w' = urandom_reads w).
Proof.
  assert (Hinv : forall cs p w,
             let '(p', w') := run_calls serve cs p w in
             (ports_taken w' + ports_due p' = ports_taken w + ports_due p)%nat /\
             (urandom_reads w' + draws_due p' w' = urandom_reads w + draws_due p w)%nat /\
             (ports_taken w <= ports_taken w')%nat /\
             (urandom_reads w <= urandom_reads w')%nat).
  { clear cs p w. induction cs as [| c cs IH]; intros p w; simpl.
    - split_and!; lia.
    - pose proof (run_call_defaults c p w) as Hc.
      destruct (run_call serve c p w) as [[ok p1] w1].
      specialize (IH p1 w1). destruct (run_calls serve cs p1 w1) as [p' w'].
      lia. }
  specialize (Hinv cs p w). destruct (run_calls serve cs p w) as [p' w'].
  destruct Hinv as (Hp & Hd & Hpm & Hdm).
  assert (Hp1 : (ports_due p <= 1)%nat) by (unfold ports_due; destruct (api_url p); lia).
  assert (Hd1 : (draws_due p w <= 1)%nat) by (unfold draws_due; destruct (generates p w); lia).
  split_and!; [lia | lia | lia | lia | exact Hp1 | exact Hd1 | |].
  - unfold ports_due in Hp. destruct (api_url p); [discriminate |]. intros _. lia.
  - intros Hg. unfold draws_due in Hd at 2. rewrite Hg in Hd. lia.
Qed.

Lemma run_call_environment (c : Call) (p : Proxy) (w : World E) :
  let '(_, p', w') := run_call serve c p w in
  environ w' = environ w /\
  exists procs,
    children w' = (children w ++ procs)%list /\
    Forall (inherits (environ w)) procs.
Proof.
  call_cases c p w; cbn [fst snd is_ok];
    cbn [spawn deliver log_record terminate update_world fst snd environ children];
    autorewrite with frames; cbn [log_record environ children];
    (split; [reflexivity |]).
  - exists [launch p w a b]. split; [reflexivity |].
    constructor; [| constructor]. intros name Hname.
    unfold launch. cbn [env]. now apply lookup_insert_ne.
  - exists []. rewrite app_nil_r. split; [reflexivity | constructor].
  - exists []. rewrite app_nil_r. split; [reflexivity | constructor].
  - exists []. rewrite app_nil_r. split; [reflexivity | constructor].
  - exists []. rewrite app_nil_r. split; [reflexivity | constructor].
  - exists []. rewrite app_nil_r. split; [reflexivity | constructor].
  - exists []. rewrite app_nil_r. split; [reflexivity | constructor].
  - exists []. rewrite app_nil_r. split; [reflexivity | constructor].
  - exists []. rewrite app_nil_r. split; [reflexivity | constructor].
Qed.

(** No call changes [os.environ]: the token is put into a copy, which
    only the child receives, and every other variable reaches the child
    as the parent has it. *)
Theorem environment_is_copied_not_changed (cs : list Call) (p : Proxy) (w : World E) :
  let '(p', w') := run_calls serve cs p w in
  environ w' = environ w /\
  exists procs,
    children w' = (children w ++ procs)%list /\
    Forall (inherits (environ w)) procs.
Proof.
  revert p w. induction cs as [| c cs IH]; intros p w; simpl.
  - split; [reflexivity |]. exists []. rewrite app_nil_r. split; [reflexivity | constructor].
  - pose proof (run_call_environment c p w) as Hc.
    destruct (run_call serve c p w) as [[ok p1] w1].
    destruct Hc as (He & procs & Hc & Hp).
    specialize (IH p1 w1). destruct (run_calls serve cs p1 w1) as [p' w'].
    destruct IH as (He' & procs' & Hc' & Hp').
    rewrite He in *. split; [exact He' |].
    exists (procs ++ procs')%list. rewrite Hc', Hc, <- app_assoc.
    split; [reflexivity |]. now apply Forall_app.
Qed.

(** A route operation never spawns or signals a process and never
    changes the configuration or the handle; on an object whose address
    and token are assigned it changes nothing of the object, takes no
    port, reads no random bytes and writes at most its own log record. *)
Theorem route_operations_touch_only_the_wire (c : Call) (p : Proxy) (w : World E) :
  is_route_operation c = true ->
  let '(_, p', w') := run_call serve c p w in
  (children w' = children w /\ signals w' = signals w /\ environ w' = environ w /\
   proxy_process p' = proxy_process p /\ log_level p' = log_level p /\
   public_url p' = public_url p) /\
  (is_assigned (api_url p) = true -> is_assigned (auth_token p) = true ->
   p' = p /\ ports_taken w' = ports_taken w /\ urandom_reads w' = urandom_reads w /\
   (length (log w') <= length (log w) + 1)%nat).
Proof.
  intros Hc. destruct c as [| | route target | route |]; try discriminate; cbn [run_call].
  - rewrite add_route_eq. cbn [deliver children signals environ ports_taken urandom_reads log].
    autorewrite with frames. cbn [log_record children signals environ].
    split; [split_and!; reflexivity |].
    destruct p as [lvl pub [| u] [| t] proc]; try discriminate. intros _ _.
    cbn. rewrite length_app. simpl. split_and!; [reflexivity | reflexivity | reflexivity | lia].
  - rewrite delete_route_eq. cbn [deliver children signals environ ports_taken urandom_reads log].
    autorewrite with frames. cbn [log_record children signals environ].
    split; [split_and!; reflexivity |].
    destruct p as [lvl pub [| u] [| t] proc]; try discriminate. intros _ _.
    cbn. rewrite length_app. simpl. split_and!; [reflexivity | reflexivity | reflexivity | lia].
  - rewrite get_all_routes_eq. cbn [deliver children signals environ ports_taken urandom_reads log].
    autorewrite with frames.
    split; [split_and!; reflexivity |].
    destruct p as [lvl pub [| u] [| t] proc]; try discriminate. intros _ _.
    cbn. split_and!; [reflexivity | reflexivity | reflexivity | lia].
Qed.

(** Repeating a route operation fetches the same request again: same
    URL, same header, same body, whatever the first attempt's outcome. *)
Theorem retry_sends_the_same_request (c : Call) (p : Proxy) (w : World E) :
  is_route_operation c = true ->
  exists req, sent (snd (run_calls serve [c; c] p w)) = (sent w ++ [req; req])%list.
Proof.
  intros Hc. destruct c as [| | route target | route |]; try discriminate;
    cbn [run_calls run_call].
  - rewrite add_route_eq, add_route_eq. eexists.
    repeat (cbn [snd deliver sent log_record]; autorewrite with frames).
    rewrite <- app_assoc. reflexivity.
  - rewrite delete_route_eq, delete_route_eq. eexists.
    repeat (cbn [snd deliver sent log_record]; autorewrite with frames).
    rewrite <- app_assoc. reflexivity.
  - rewrite get_all_routes_eq, get_all_routes_eq. eexists.
    repeat (cbn [snd deliver sent log_record]; autorewrite with frames).
    rewrite <- app_assoc. reflexivity.
Qed.

(** With the empty route, [add_route] and [delete_route] address the
    collection itself: their [PUT] and [DELETE] are for the URL that
    [get_all_routes] reads. *)
Theorem empty_route_addresses_the_collection (target : string) (p : Proxy) (w : World E) :
  exists put del get,
    sent (snd (add_route serve "" target p w)) = (sent w ++ [put])%list /\
    sent (snd (delete_route serve "" p w)) = (sent w ++ [del])%list /\
    sent (snd (get_all_routes serve p w)) = (sent w ++ [get])%list /\
    method put = "PUT" /\ method del = "DELETE" /\ method get = "GET" /\
    url put = url get /\ url del = url get /\
    url get = api_of p w +:+ "/api/routes/".
Proof.
  rewrite add_route_eq, delete_route_eq, get_all_routes_eq. do 3 eexists.
  cbn [snd deliver sent]. autorewrite with frames. cbn [log_record sent].
  split_and!; reflexivity.
Qed.

Lemma view_api_log_view (p : Proxy) (w : World E) : view_api (log_view p w) = api_of p w.
Proof. reflexivity. Qed.

Lemma log_view_read_api (p : Proxy) (w : World E) :
  log_view (set_api_url (api_of p w) p) (after_api p w) = view_read_api (log_view p w).
Proof.
  unfold log_view, view_read_api, view_api. cbn [set_api_url public_url api_url auth_token
    view_public_url view_api_url view_token_assigned view_token_supplied view_free_port
    view_ports_taken view_log].
  autorewrite with frames. rewrite ports_taken_after_api. unfold ports_due, api_of.
  destruct (api_url p); f_equal; lia.
Qed.

Lemma log_view_read_token (p : Proxy) (w : World E) (t : string) :
  log_view (set_auth_token t p) (after_token p w) = view_read_token (log_view p w).
Proof.
  unfold log_view, view_read_token. cbn [set_auth_token public_url api_url auth_token
    is_assigned view_public_url view_api_url view_token_assigned view_token_supplied
    view_free_port view_ports_taken view_log].
  autorewrite with frames. rewrite log_after_token. unfold generates.
  destruct (auth_token p); [| reflexivity].
  cbn [is_assigned orb]. now destruct (Text.is_empty _).
Qed.

(** The view after a call is a function of the call and the view before. *)
Lemma log_view_step (c : Call) (p : Proxy) (w : World E) :
  let '(_, p', w') := run_call serve c p w in
  log_view p' w' = view_step c (log_view p w).
Proof.
  call_cases c p w; cbn [fst snd is_ok view_step];
    change (view_public_url (log_view p w)) with (public_url p);
    rewrite ?view_api_log_view, ?Ha, ?Hb.
  - change (log_view (set_proxy_process (launch p w a b) (resolved p w))
              (spawn (launch p w a b)
                 (log_record LogInfo "Starting the Dask Gateway Proxy..."
                    (after_token (set_api_url (api_of p w) p) (after_api p w)))))
      with (view_write LogInfo "Starting the Dask Gateway Proxy..."
              (log_view (set_auth_token (token_of p w) (set_api_url (api_of p w) p))
                 (after_token (set_api_url (api_of p w) p) (after_api p w)))).
    now rewrite log_view_read_token, log_view_read_api.
  - change (log_view (resolved p w)
              (log_record LogInfo "Starting the Dask Gateway Proxy..."
                 (after_token (set_api_url (api_of p w) p) (after_api p w))))
      with (view_write LogInfo "Starting the Dask Gateway Proxy..."
              (log_view (set_auth_token (token_of p w) (set_api_url (api_of p w) p))
                 (after_token (set_api_url (api_of p w) p) (after_api p w)))).
    now rewrite log_view_read_token, log_view_read_api.
  - apply log_view_read_api.
  - reflexivity.
  - reflexivity.
  - reflexivity.
  - set (w0 := log_record LogDebug ("Adding route " +:+ route +:+ " -> " +:+ target) w).
    change (log_view (resolved p w) (deliver serve ?r ?x))
      with (log_view (set_auth_token (token_of p w) (set_api_url (api_of p w0) p))
              (after_token (set_api_url (api_of p w0) p) (after_api p w0))).
    now rewrite log_view_read_token, log_view_read_api.
  - set (w0 := log_record LogDebug ("Removing route " +:+ route) w).
    change (log_view (resolved p w) (deliver serve ?r ?x))
      with (log_view (set_auth_token (token_of p w) (set_api_url (api_of p w0) p))
              (after_token (set_api_url (api_of p w0) p) (after_api p w0))).
    now rewrite log_view_read_token, log_view_read_api.
  - change (log_view (resolved p w) (deliver serve ?r ?x))
      with (log_view (set_auth_token (token_of p w) (set_api_url (api_of p w) p))
              (after_token (set_api_url (api_of p w) p) (after_api p w))).
    now rewrite log_view_read_token, log_view_read_api.
Qed.

Lemma log_view_steps (cs : list Call) (p : Proxy) (w : World E) :
  let '(p', w') := run_calls serve cs p w in
  log_view p' w' = fold_left (fun v c => view_step c v) cs (log_view p w).
Proof.
  revert p w. induction cs as [| c cs IH]; intros p w; simpl; [reflexivity |].
  pose proof (log_view_step c p w) as Hc.
  destruct (run_call serve c p w) as [[ok p1] w1].
  specialize (IH p1 w1). destruct (run_calls serve cs p1 w1) as [p' w'].
  now rewrite IH, Hc.
Qed.

Lemma run_call_requests (c : Call) (p : Proxy) (w : World E) :
  let '(_, p', w') := run_call serve c p w in
  exists reqs,
    sent w' = (sent w ++ reqs)%list /\
    Forall well_formed reqs /\
    length reqs = (if is_route_operation c then 1 else 0)%nat.
Proof.
  call_cases c p w; cbn [fst snd is_ok is_route_operation];
    cbn [spawn deliver log_record terminate update_world fst snd sent];
    autorewrite with frames; cbn [log_record sent].
  - exists []. rewrite app_nil_r. split_and!; [reflexivity | constructor | reflexivity].
  - exists []. rewrite app_nil_r. split_and!; [reflexivity | constructor | reflexivity].
  - exists []. rewrite app_nil_r. split_and!; [reflexivity | constructor | reflexivity].
  - exists []. rewrite app_nil_r. split_and!; [reflexivity | constructor | reflexivity].
  - exists []. rewrite app_nil_r. split_and!; [reflexivity | constructor | reflexivity].
  - exists []. rewrite app_nil_r. split_and!; [reflexivity | constructor | reflexivity].
  - eexists [_]. split_and!; [reflexivity | | reflexivity].
    constructor; [| constructor]. left. split; [reflexivity | discriminate].
  - eexists [_]. split_and!; [reflexivity | | reflexivity].
    constructor; [| constructor]. right. split; [now right | reflexivity].
  - eexists [_]. split_and!; [reflexivity | | reflexivity].
    constructor; [| constructor]. right. split; [now left | reflexivity].
Qed.

(** Every route operation calls [fetch] exactly once and [start] and
    [stop] never do; every request given to [fetch] has a body exactly
    when its method is [PUT], which is what tornado's check of method
    and body asks for.  The requests tornado attempts for one call are
    those of [exchange]: the request given and one more for each
    redirect followed. *)
Theorem one_well_formed_request_per_operation (cs : list Call) (p : Proxy) (w : World E) :
  exists reqs,
    sent (snd (run_calls serve cs p w)) = (sent w ++ reqs)%list /\
    Forall well_formed reqs /\
    length reqs = length (filter (fun c => is_route_operation c = true) cs).
Proof.
  revert p w. induction cs as [| c cs IH]; intros p w; cbn [run_calls].
  - exists []. rewrite app_nil_r. split_and!; [reflexivity | constructor | reflexivity].
  - pose proof (run_call_requests c p w) as Hc.
    destruct (run_call serve c p w) as [[ok p1] w1].
    destruct Hc as (reqs & Hs & Hw & Hl).
    destruct (IH p1 w1) as (reqs' & Hs' & Hw' & Hl').
    exists (reqs ++ reqs')%list. rewrite Hs', Hs, <- app_assoc.
    split_and!; [reflexivity | now apply Forall_app |].
    rewrite length_app, Hl, Hl', filter_cons.
    destruct (is_route_operation c); simpl; reflexivity.
Qed.

(** The route operations never look at the process handle: with or
    without a started engine they return the same way, send the same
    request and leave the same world. *)
Theorem route_operations_ignore_the_handle
        (c : Call) (p : Proxy) (w : World E) (proc : Popen) :
  is_route_operation c = true ->
  let '(ok1, p1, w1) := run_call serve c (set_proxy_process proc p) w in
  let '(ok2, p2, w2) := run_call serve c p w in
  ok1 = ok2 /\ w1 = w2 /\ p1 = set_proxy_process proc p2.
Proof.
  intros Hc. destruct c as [| | route target | route |]; try discriminate; cbn [run_call].
  - rewrite !add_route_eq. split_and!; reflexivity.
  - rewrite !delete_route_eq. split_and!; reflexivity.
  - rewrite !get_all_routes_eq. split_and!; reflexivity.
Qed.

End Sequences.

(** ** What the log can reveal *)

Section Secrecy.
Context {E1 E2 : Type}.
Variable serve1 : E1 -> HTTPRequest -> E1 * HTTPResponse.
Variable serve2 : E2 -> HTTPRequest -> E2 * HTTPResponse.
Context `{Library}.

(** The log does not depend on the token, the random bytes, the engine or
    its answers: two runs of the same calls that start with the same
    URLs, ports and log, and agree on whether a token is assigned or
    supplied, write the same log, whatever their tokens, random bytes
    and engines are. *)
Theorem log_does_not_depend_on_secrets (cs : list Call)
        (p1 : Proxy) (w1 : World E1) (p2 : Proxy) (w2 : World E2) :
  log_view p1 w1 = log_view p2 w2 ->
  log (snd (run_calls serve1 cs p1 w1)) = log (snd (run_calls serve2 cs p2 w2)).
Proof.
  intros Hv.
  pose proof (log_view_steps serve1 cs p1 w1) as H1.
  pose proof (log_view_steps serve2 cs p2 w2) as H2.
  destruct (run_calls serve1 cs p1 w1) as [p1' w1'].
  destruct (run_calls serve2 cs p2 w2) as [p2' w2'].
  cbn [snd].
  change (log w1') with (view_log (log_view p1' w1')).
  change (log w2') with (view_log (log_view p2' w2')).
  now rewrite H1, H2, Hv.
Qed.

End Secrecy.

(** ** The further properties on sample hosts *)

Section MoreExamples.
#[local] Existing Instance ReferenceLibrary.


(** [start] then [stop] on a fresh host. *)
Lemma stop_terminates_started_child_witness :
  let '(_, p1, w1) := start (E := unit) new_proxy (fresh_world tt) in
  let '(res, p2, w2) := stop p1 w1 in
  exists proc,
    children w1 = (children (fresh_world tt) ++ [proc])%list /\
    res = Ok tt /\
    signals w2 = (signals (fresh_world tt) ++ [(pid proc, SIGTERM)])%list /\
    p2 = p1 /\
    proxy_process p2 = Some proc /\
    children w2 = children w1 /\
    sent w2 = sent (fresh_world tt) /\
    log w2 = log w1.
Proof.
  apply (stop_terminates_started_child new_proxy (fresh_world tt)
           "0.0.0.0:8080" "localhost:8000"); vm_compute; reflexivity.
Defined.

(** Two [start]s and a [stop] on a fresh host: pid 1 is signalled, pid 0
    is not. *)
Example two_starts_one_stop :
  let '(_, p1, w1) := start (E := unit) new_proxy (fresh_world tt) in
  let '(_, p2, w2) := start p1 w1 in
  let '(_, p3, w3) := stop p2 w2 in
  map pid (children w3) = [0%nat; 1%nat] /\ signals w3 = [(1%nat, SIGTERM)].
Proof. vm_compute. auto. Qed.

Lemma second_start_orphans_first_child_witness :
  let '(_, p1, w1) := start (E := unit) new_proxy (fresh_world tt) in
  let '(res2, p2, w2) := start p1 w1 in
  let '(res3, p3, w3) := stop p2 w2 in
  exists first second,
    res2 = Ok tt /\ res3 = Ok tt /\
    children w3 = (children (fresh_world tt) ++ [first; second])%list /\
    pid first <> pid second /\
    args first = args second /\
    env first = env second /\
    proxy_process p3 = Some second /\
    signals w3 = (signals (fresh_world tt) ++ [(pid second, SIGTERM)])%list.
Proof.
  apply (second_start_orphans_first_child new_proxy (fresh_world tt)
           "0.0.0.0:8080" "localhost:8000"); vm_compute; reflexivity.
Defined.

(** A [delete_route] on a configured object leaves the object as it is. *)
Lemma route_operations_touch_only_the_wire_witness :
  let '(_, p', w') := run_call not_found_engine (CallDeleteRoute "ghost")
                        configured_proxy (fresh_world tt) in
  (children w' = children (fresh_world tt) /\ signals w' = signals (fresh_world tt) /\
   environ w' = environ (fresh_world tt) /\
   proxy_process p' = proxy_process configured_proxy /\
   log_level p' = log_level configured_proxy /\
   public_url p' = public_url configured_proxy) /\
  (is_assigned (api_url configured_proxy) = true ->
   is_assigned (auth_token configured_proxy) = true ->
   p' = configured_proxy /\ ports_taken w' = ports_taken (fresh_world tt) /\
   urandom_reads w' = urandom_reads (fresh_world tt) /\
   (length (log w') <= length (log (fresh_world tt)) + 1)%nat).
Proof.
  apply (route_operations_touch_only_the_wire not_found_engine (CallDeleteRoute "ghost")
           configured_proxy (fresh_world tt)).
  reflexivity.
Defined.

(** [get_all_routes] with and without a handle. *)
Lemma route_operations_ignore_the_handle_witness :
  let '(ok1, p1, w1) :=
    run_call not_found_engine CallGetAllRoutes
      (set_proxy_process (mkPopen 7 [] ∅ PIPE Inherited Inherited true) configured_proxy)
      (fresh_world tt) in
  let '(ok2, p2, w2) :=
    run_call not_found_engine CallGetAllRoutes configured_proxy (fresh_world tt) in
  ok1 = ok2 /\ w1 = w2 /\
  p1 = set_proxy_process (mkPopen 7 [] ∅ PIPE Inherited Inherited true) p2.
Proof.
  apply (route_operations_ignore_the_handle not_found_engine CallGetAllRoutes
           configured_proxy (fresh_world tt)
           (mkPopen 7 [] ∅ PIPE Inherited Inherited true)).
  reflexivity.
Defined.

(** A failed [add_route] tried again. *)
Lemma retry_sends_the_same_request_witness :
  exists req,
    sent (snd (run_calls not_found_engine
                 [CallAddRoute "scheduler-1" "10.1.2.3:8786";
                  CallAddRoute "scheduler-1" "10.1.2.3:8786"]
                 new_proxy (fresh_world tt))) =
    (sent (fresh_world tt) ++ [req; req])%list.
Proof.
  apply (retry_sends_the_same_request not_found_engine
           (CallAddRoute "scheduler-1" "10.1.2.3:8786") new_proxy (fresh_world tt)).
  reflexivity.
Defined.

(** Two hosts with different random bytes and different engines: the
    generated tokens differ, the logs do not. *)
Lemma log_does_not_depend_on_secrets_witness :
  log (snd (run_calls not_found_engine
              [CallAddRoute "scheduler-1" "10.1.2.3:8786"; CallStart; CallGetAllRoutes]
              new_proxy (host ∅ (fun _ => 0) tt))) =
  log (snd (run_calls Engine.handle
              [CallAddRoute "scheduler-1" "10.1.2.3:8786"; CallStart; CallGetAllRoutes]
              new_proxy (host ∅ (fun _ => 2 ^ 100) (engine_on_host "s3cret" ∅)))).
Proof.
  apply (log_does_not_depend_on_secrets not_found_engine Engine.handle
           [CallAddRoute "scheduler-1" "10.1.2.3:8786"; CallStart; CallGetAllRoutes]
           new_proxy (host ∅ (fun _ => 0) tt)
           new_proxy (host ∅ (fun _ => 2 ^ 100) (engine_on_host "s3cret" ∅))).
  reflexivity.
Defined.

(** What such a log holds. *)
Example log_of_a_session :
  log (snd (run_calls not_found_engine
              [CallAddRoute "scheduler-1" "10.1.2.3:8786"; CallStart; CallGetAllRoutes]
              new_proxy (host ∅ (fun _ => 0) tt))) =
  [(LogDebug, "Adding route scheduler-1 -> 10.1.2.3:8786");
   (LogInfo, "Generating new CONFIG_TLS_PROXY_TOKEN");
   (LogInfo, "Starting the Dask Gateway Proxy...")].
Proof. vm_compute. reflexivity. Qed.

End MoreExamples.
